(** * Lotus: a registry of demand-loaded, reference-counted resources

    A shallow embedding of [include/lotus/lotus.hpp] and the properties of
    its handle life cycle, its registry operations and its locking.

    The header is a C++ template over [resource_type].  Nothing in it looks
    inside a resource, so a [resource_type*] is modelled by an address
    ([None] is [nullptr]).  The [shared] control blocks live in a heap that
    is indexed by their address; the registry maps names to such addresses
    and handles hold them, so that all handles of one name alias one block.

    Every function runs in a small state-and-failure monad: the state is the
    heap, the registry and a trace of the calls the source makes to the
    mutex and to the two callbacks; a failure ([None]) stands for undefined
    behaviour: dereferencing [nullptr] or a dangling pointer, locking a
    mutex the thread already owns, and running the destructor of a
    [lock_guard] a second time, which unlocks a mutex the thread does not
    own.  The model is sequential: it follows one thread through the
    library. *)

From stdpp Require Import base gmap strings list.
From Stdlib Require Import ZArith Lia.

Local Open Scope string_scope.
Local Open Scope list_scope.
Local Open Scope nat_scope.

(** ** Data model *)

(** [enum class states] of [resource_handle], in the order of the source. *)
Inductive states : Type :=
  | loaded
  | unloaded
  | waiting_load.

#[global] Instance states_eq_dec : EqDecision states.
Proof. solve_decision. Defined.

(** A [resource_type*]: [None] is [nullptr]. *)
Abbreviation objptr := (option nat).

(** A [shared*] that is not null: the index of the block in the heap. *)
Abbreviation ptr := nat.

(** [struct shared].  The source's fourth field, [registry], is the
    back-pointer to the owning registry; [find_or_create_shared] sets it to
    [this] and nothing ever changes it.  The model has one registry, the one
    of the [world], so [shr->registry] is that registry. *)
Record shared : Type := mk_shared {
  state : states;
  count : Z;
  object : objptr;
}.

(** [std::atomic<unsigned int>] arithmetic wraps modulo [2^32]. *)
Definition uint_modulus : Z := (2 ^ 32)%Z.

Definition set_state (st : states) (s : shared) : shared :=
  {| state := st; count := count s; object := object s |}.

Definition set_count (c : Z) (s : shared) : shared :=
  {| state := state s; count := c; object := object s |}.

Definition set_object (o : objptr) (s : shared) : shared :=
  {| state := state s; count := count s; object := o |}.

(** What the trace records: the calls to [mutex.lock()] and
    [mutex.unlock()] made by the [lock_guard], and the calls through the two
    callback pointers [rrc] and [ruc]. *)
Inductive event : Type :=
  | EvLock
  | EvUnlock
  | EvRequest (name : string)
  | EvUnload (o : objptr).

#[global] Instance event_eq_dec : EqDecision event.
Proof. solve_decision. Defined.

(** [struct resource_registry].

    [rrc] is the request callback.  It is code of the library's user; what
    it may do to the registry is call [reg] (the header: called when the
    resource requested by [get] is not loaded), at once or later.  The model
    takes the list of [reg] calls it makes before it returns; the empty list
    is a callback that defers the load.

    [ruc], the unload callback, releases the object and does not touch the
    registry: calling it is the trace event [EvUnload].

    [mutex] is [true] while the mutex is locked. *)
Record resource_registry : Type := mk_registry {
  rrc : string → list (string * objptr);
  mutex : bool;
  reg : gmap string ptr;
}.

Record world : Type := mk_world {
  heap : list shared;
  registry : resource_registry;
  trace : list event;
}.

(** [struct resource_handle]: its only field is [shr], a [shared*]. *)
Record resource_handle : Type := mk_handle {
  shr : option ptr;
}.

(** ** The monad of the model *)

Definition M (A : Type) : Type := world → option (A * world).

Definition ret {A} (a : A) : M A := λ w, Some (a, w).

Definition bind {A B} (m : M A) (k : A → M B) : M B :=
  λ w, match m w with
       | Some (a, w') => k a w'
       | None => None
       end.

Notation "'do' x <- m ; k" := (bind m (λ x, k))
  (at level 10, x name, m at level 100, k at level 200).
Notation "m ;; k" := (bind m (λ _, k))
  (at level 100, k at level 200, right associativity).

Definition undefined_behaviour {A} : M A := λ _, None.

Definition emit (e : event) : M unit :=
  λ w, Some (tt, mk_world (heap w) (registry w) (trace w ++ [e])).

Fixpoint for_each {A} (l : list A) (body : A → M unit) : M unit :=
  match l with
  | [] => ret tt
  | x :: l' => body x ;; for_each l' body
  end.

(** ** Memory: the [shared] blocks *)

Definition deref (p : ptr) : M shared :=
  λ w, match heap w !! p with
       | Some s => Some (s, w)
       | None => None
       end.

Definition update (p : ptr) (f : shared → shared) : M unit :=
  λ w, match heap w !! p with
       | Some s => Some (tt, mk_world (<[p := f s]> (heap w)) (registry w) (trace w))
       | None => None
       end.

(** [new shared]: a fresh block at a fresh address. *)
Definition new_shared (s : shared) : M ptr :=
  λ w, Some (length (heap w), mk_world (heap w ++ [s]) (registry w) (trace w)).

Definition state_load (p : ptr) : M states :=
  do s <- deref p; ret (state s).

Definition state_store (p : ptr) (st : states) : M unit :=
  update p (set_state st).

(** [fetch_add] and [fetch_sub] return the value held before. *)
Definition count_fetch_add (p : ptr) (n : Z) : M Z :=
  do s <- deref p;
  update p (set_count ((count s + n) mod uint_modulus)%Z) ;;
  ret (count s).

Definition count_fetch_sub (p : ptr) (n : Z) : M Z :=
  do s <- deref p;
  update p (set_count ((count s - n) mod uint_modulus)%Z) ;;
  ret (count s).

Definition object_load (p : ptr) : M objptr :=
  do s <- deref p; ret (object s).

Definition object_store (p : ptr) (o : objptr) : M unit :=
  update p (set_object o).

(** ** The mutex and its [lock_guard] *)

(** [std::lock_guard<std::mutex> lock(reg.mutex)] is [mutex.lock()].
    Locking a mutex the thread already owns never returns. *)
Definition lock_guard_ctor : M unit :=
  λ w, if mutex (registry w) then None
       else Some (tt, mk_world (heap w)
                        (mk_registry (rrc (registry w)) true (reg (registry w)))
                        (trace w ++ [EvLock])).

(** [~lock_guard()] is [mutex.unlock()], whether the source calls the
    destructor by hand or the scope ends.  On a guard that holds the mutex
    it unlocks.  Run again on a guard that was already destroyed, it ends
    an object whose lifetime is over and unlocks a mutex the thread does
    not own: undefined behaviour. *)
Definition lock_guard_dtor : M unit :=
  λ w, if mutex (registry w) then
         Some (tt, mk_world (heap w)
                     (mk_registry (rrc (registry w)) false (reg (registry w)))
                     (trace w ++ [EvUnlock]))
       else None.

(** ** [resource_registry::find_or_create_shared] *)

Definition reg_find (name : string) : M (option ptr) :=
  λ w, Some (reg (registry w) !! name, w).

Definition reg_insert (name : string) (p : ptr) : M unit :=
  λ w, Some (tt, mk_world (heap w)
                   (mk_registry (rrc (registry w)) (mutex (registry w))
                      (<[name := p]> (reg (registry w))))
                   (trace w)).

Definition find_or_create_shared (name : string) : M ptr :=
  do itr <- reg_find name;
  match itr with
  | Some p => ret p
  | None =>
      do p <- new_shared (mk_shared unloaded 0%Z None);
      reg_insert name p ;;
      ret p
  end.

(** ** [resource_handle] *)

(** [resource_handle(shared* _shr)] *)
Definition handle_from_shared (p : option ptr) : M resource_handle :=
  match p with
  | Some q => count_fetch_add q 1%Z ;; ret (mk_handle (Some q))
  | None => ret (mk_handle None)
  end.

(** [resource_handle()] *)
Definition handle_empty : resource_handle := mk_handle None.

(** [resource_handle(const resource_handle& other)] *)
Definition handle_copy (other : resource_handle) : M resource_handle :=
  match shr other with
  | Some q => count_fetch_add q 1%Z ;; ret (mk_handle (Some q))
  | None => ret (mk_handle None)
  end.

(** The unload callback, [shr->registry->ruc(o)]. *)
Definition call_ruc (o : objptr) : M unit := emit (EvUnload o).

(** [~resource_handle()].  The result is the handle object as the
    destructor leaves it, with [shr = nullptr]. *)
Definition handle_dtor (h : resource_handle) : M resource_handle :=
  match shr h with
  | Some q =>
      do prev <- count_fetch_sub q 1%Z;
      (if bool_decide (prev = 1%Z) then
         do st <- state_load q;
         if bool_decide (st = loaded) then
           state_store q unloaded ;;
           do o <- object_load q;
           call_ruc o
         else ret tt
       else ret tt) ;;
      ret (mk_handle None)
  | None => ret (mk_handle None)
  end.

(** [operator=] *)
Definition handle_assign (this other : resource_handle) : M resource_handle :=
  if bool_decide (shr this = shr other) then ret this
  else handle_dtor this ;; handle_from_shared (shr other).

(** [good()] *)
Definition good (h : resource_handle) : M bool :=
  match shr h with
  | Some q => do st <- state_load q; ret (bool_decide (st = loaded))
  | None => undefined_behaviour
  end.

(** [operator->()] *)
Definition arrow (h : resource_handle) : M objptr :=
  match shr h with
  | Some q => object_load q
  | None => undefined_behaviour
  end.

(** ** The functions of the registry *)

(** The statements of [lotus::reg], up to the end of its scope. *)
Definition lotus_reg_body (name : string) (obj : objptr) : M unit :=
  lock_guard_ctor ;;
  do p <- find_or_create_shared name;
  lock_guard_dtor ;;
  object_store p obj ;;
  state_store p loaded.

(** [lotus::reg]: its statements, then the end of the scope, where [lock],
    which line 223 has destroyed by hand, is destroyed again. *)
Definition lotus_reg (name : string) (obj : objptr) : M unit :=
  lotus_reg_body name obj ;;
  lock_guard_dtor.

(** The request callback, [reg.rrc(name, reg)]. *)
Definition call_rrc (name : string) : M unit :=
  emit (EvRequest name) ;;
  do calls <- (λ w, Some (rrc (registry w) name, w));
  for_each calls (λ c, lotus_reg c.1 c.2).

(** The statements of [lotus::get], up to the end of its scope: the result
    is the handle of the [return] statement. *)
Definition lotus_get_body (name : string) : M resource_handle :=
  lock_guard_ctor ;;
  do p <- find_or_create_shared name;
  lock_guard_dtor ;;
  do st <- state_load p;
  (if bool_decide (st = unloaded) then call_rrc name else ret tt) ;;
  handle_from_shared (Some p).

(** [lotus::get]: its statements, then the end of the scope, where [lock],
    which line 203 has destroyed by hand, is destroyed again. *)
Definition lotus_get (name : string) : M resource_handle :=
  do h <- lotus_get_body name;
  lock_guard_dtor ;;
  ret h.

(** The range-for over [reg.reg].  An [unordered_map] is walked in an order
    the standard does not fix; the model walks [map_to_list], and what is
    proved below about the walk holds for every list of entries. *)
Definition reg_entries : M (list (string * ptr)) :=
  λ w, Some (map_to_list (reg (registry w)), w).

(** The loop of [reload_registry]; the result is [to_load]. *)
Fixpoint reload_scan (entries : list (string * ptr)) (to_load : list string)
    : M (list string) :=
  match entries with
  | [] => ret to_load
  | (name, p) :: rest =>
      do st <- state_load p;
      if bool_decide (st = loaded) then
        state_store p unloaded ;;
        do o <- object_load p;
        call_ruc o ;;
        reload_scan rest (to_load ++ [name])
      else reload_scan rest to_load
  end.

(** [lotus::reload_registry] up to the explicit [lock.~lock_guard()]. *)
Definition reload_unload_phase : M (list string) :=
  lock_guard_ctor ;;
  do entries <- reg_entries;
  do to_load <- reload_scan entries [];
  lock_guard_dtor ;;
  ret to_load.

(** The rest of [lotus::reload_registry]: the loop over [to_load], and the
    end of the scope, where [lock], which line 250 has destroyed by hand,
    is destroyed again. *)
Definition reload_request_phase (to_load : list string) : M unit :=
  for_each to_load call_rrc ;;
  lock_guard_dtor.

(** [lotus::reload_registry] *)
Definition reload_registry : M unit :=
  do to_load <- reload_unload_phase;
  reload_request_phase to_load.

(** The loop of [unload_registry]. *)
Fixpoint unload_scan (entries : list (string * ptr)) : M unit :=
  match entries with
  | [] => ret tt
  | (name, p) :: rest =>
      do st <- state_load p;
      if bool_decide (st = loaded) then
        state_store p unloaded ;;
        do o <- object_load p;
        call_ruc o ;;
        unload_scan rest
      else unload_scan rest
  end.

(** [lotus::unload_registry] *)
Definition unload_registry : M unit :=
  lock_guard_ctor ;;
  do entries <- reg_entries;
  unload_scan entries ;;
  lock_guard_dtor.

(** [resource_registry(_rrc, _ruc)]: a fresh registry in an empty heap. *)
Definition new_world (request : string → list (string * objptr)) : world :=
  mk_world [] (mk_registry request false ∅) [].

(** [resource_registry] declares no destructor.  The implicit one destroys
    the members: the map goes, with its pointers; no block is deleted and no
    callback is called. *)
Definition registry_dtor : M unit :=
  λ w, Some (tt, mk_world (heap w)
                   (mk_registry (rrc (registry w)) (mutex (registry w)) ∅)
                   (trace w)).

(** ** Programs that use the library

    A client holds handles in variables and calls the library: [get] into a
    new variable, [reg], copying a variable into a new one, destroying the
    handle in a variable (which leaves the empty handle there), and the two
    bulk operations.  A copy or a drop of a variable that does not exist
    does nothing. *)
Inductive op : Type :=
  | OpGet (name : string)
  | OpReg (name : string) (o : objptr)
  | OpCopy (i : nat)
  | OpDrop (i : nat)
  | OpReload
  | OpUnload.

Definition run_op (c : op) (vars : list resource_handle)
    : M (list resource_handle) :=
  match c with
  | OpGet name => do h <- lotus_get name; ret (vars ++ [h])
  | OpReg name o => lotus_reg name o ;; ret vars
  | OpCopy i =>
      match vars !! i with
      | Some h => do h' <- handle_copy h; ret (vars ++ [h'])
      | None => ret vars
      end
  | OpDrop i =>
      match vars !! i with
      | Some h => do h' <- handle_dtor h; ret (<[i := h']> vars)
      | None => ret vars
      end
  | OpReload => reload_registry ;; ret vars
  | OpUnload => unload_registry ;; ret vars
  end.

Fixpoint run (prog : list op) (vars : list resource_handle)
    : M (list resource_handle) :=
  match prog with
  | [] => ret vars
  | c :: prog' => do vars' <- run_op c vars; run prog' vars'
  end.

(** The operations of a client that call neither [get] nor [reg] nor
    [reload_registry]. *)
Definition handles_only (c : op) : bool :=
  match c with
  | OpCopy _ | OpDrop _ | OpUnload => true
  | OpGet _ | OpReg _ _ | OpReload => false
  end.

(** ** Reading a trace *)

Definition is_unload (e : event) : bool :=
  match e with EvUnload _ => true | _ => false end.

Definition is_request (e : event) : bool :=
  match e with EvRequest _ => true | _ => false end.

Definition is_lock (e : event) : bool :=
  match e with EvLock => true | _ => false end.

Definition is_unlock (e : event) : bool :=
  match e with EvUnlock => true | _ => false end.

Definition count_events (f : event → bool) (tr : list event) : nat :=
  length (filter (λ e, f e = true) tr).

(** The callback events of a trace, each with the state of the mutex at the
    time of the call; [held] is the state of the mutex before the trace. *)
Fixpoint callbacks_with_mutex (held : bool) (tr : list event)
    : list (event * bool) :=
  match tr with
  | [] => []
  | EvLock :: tr' => callbacks_with_mutex true tr'
  | EvUnlock :: tr' => callbacks_with_mutex false tr'
  | e :: tr' => (e, held) :: callbacks_with_mutex held tr'
  end.

(** The number of [mutex.unlock()] calls made while the mutex is not
    locked. *)
Fixpoint unlocks_unheld (held : bool) (tr : list event) : nat :=
  match tr with
  | [] => 0
  | EvLock :: tr' => unlocks_unheld true tr'
  | EvUnlock :: tr' => (if held then 0 else 1) + unlocks_unheld false tr'
  | _ :: tr' => unlocks_unheld held tr'
  end.

(** Whether the mutex is locked after the trace. *)
Fixpoint mutex_after (held : bool) (tr : list event) : bool :=
  match tr with
  | [] => held
  | EvLock :: tr' => mutex_after true tr'
  | EvUnlock :: tr' => mutex_after false tr'
  | _ :: tr' => mutex_after held tr'
  end.

(** ** Worlds the code can be in *)

(** Every pointer of the registry points to a block, two names never share
    a block (each block comes from the [new] of the call that inserted its
    name). *)
Record wf_store (rg : gmap string ptr) (h : list shared) : Prop := mk_wf {
  wf_ptr : ∀ n p, rg !! n = Some p → is_Some (h !! p);
  wf_inj : ∀ n1 n2 p, rg !! n1 = Some p → rg !! n2 = Some p → n1 = n2;
}.

Definition wf (w : world) : Prop := wf_store (reg (registry w)) (heap w).

Definition unlocked (w : world) : Prop := mutex (registry w) = false.

(** A world after the events [evs] with the heap [h]. *)
Definition with_heap (h : list shared) (w : world) : world :=
  mk_world h (registry w) (trace w).

Definition with_events (evs : list event) (w : world) : world :=
  mk_world (heap w) (registry w) (trace w ++ evs).

(** ** The handle, equationally *)

Definition last_drop (s : shared) : bool :=
  bool_decide (count s = 1%Z) && bool_decide (state s = loaded).

Definition dropped (s : shared) : shared :=
  let s' := set_count ((count s - 1) mod uint_modulus)%Z s in
  if last_drop s then set_state unloaded s' else s'.

Definition drop_events (s : shared) : list event :=
  if last_drop s then [EvUnload (object s)] else [].

(** What a live handle tells about the block it refers to: the block is
    there and the handle is counted in it, the count being an [unsigned
    int].  The empty handle tells nothing. *)
Definition counted (h : resource_handle) (w : world) : Prop :=
  match shr h with
  | Some q => ∃ s, heap w !! q = Some s ∧ (0 < count s < uint_modulus)%Z
  | None => True
  end.

(** ** The registry, equationally *)

(** The block [find_or_create_shared] answers with, and the heap and the
    map it leaves. *)
Definition slot_of (name : string) (rg : gmap string ptr) (h : list shared)
    : ptr :=
  match rg !! name with
  | Some p => p
  | None => length h
  end.

Definition ensured_heap (name : string) (rg : gmap string ptr)
    (h : list shared) : list shared :=
  match rg !! name with
  | Some p => h
  | None => h ++ [mk_shared unloaded 0 None]
  end.

Definition ensured_reg (name : string) (rg : gmap string ptr)
    (h : list shared) : gmap string ptr :=
  match rg !! name with
  | Some p => rg
  | None => <[name := length h]> rg
  end.

Definition slot_loaded (h : list shared) (p : ptr) : bool :=
  match h !! p with
  | Some s => bool_decide (state s = loaded)
  | None => false
  end.

Definition slot_object (h : list shared) (p : ptr) : objptr :=
  match h !! p with
  | Some s => object s
  | None => None
  end.

(** The entries of the registry whose block is loaded. *)
Definition loaded_entries (h : list shared) (entries : list (string * ptr))
    : list (string * ptr) :=
  filter (λ e, slot_loaded h e.2 = true) entries.

Definition loaded_in_registry (w : world) : list (string * ptr) :=
  loaded_entries (heap w) (map_to_list (reg (registry w))).

Definition unload_events (h : list shared) (entries : list (string * ptr))
    : list event :=
  map (λ e, EvUnload (slot_object h e.2)) (loaded_entries h entries).

(** ** Worlds used as concrete inputs *)

Definition no_calls : string → list (string * objptr) := λ _, [].

(** One block, loaded with the object at address 7 and held by one handle,
    registered under the name [a]. *)
Definition one_loaded : world :=
  mk_world [mk_shared loaded 1 (Some 7)]
           (mk_registry no_calls false {[ "a" := 0 ]}) [].

(** The same block before its load has arrived. *)
Definition one_unloaded : world :=
  mk_world [mk_shared unloaded 1 None]
           (mk_registry no_calls false {[ "a" := 0 ]}) [].

(** ** Unloads and loaded blocks *)

Definition is_unload_of (o : objptr) (e : event) : bool :=
  match e with EvUnload o' => bool_decide (o' = o) | _ => false end.

Definition holds (o : objptr) (s : shared) : bool :=
  bool_decide (state s = loaded) && bool_decide (object s = o).

(** The number of blocks that are loaded with the object [o]. *)
Definition held_objects (o : objptr) (h : list shared) : nat :=
  length (filter (λ s, holds o s = true) h).

(** The handles of a client refer to blocks that are there. *)
Definition handles_ok (vars : list resource_handle) (w : world) : Prop :=
  Forall (λ h, ∀ q, shr h = Some q → is_Some (heap w !! q)) vars.

(** Whether [get] finds the block of [name] unloaded (a name that is not
    in the map gets a fresh, unloaded block). *)
Definition get_requests (w : world) (name : string) : bool :=
  match reg (registry w) !! name with
  | Some p =>
      match heap w !! p with
      | Some s => bool_decide (state s = unloaded)
      | None => false
      end
  | None => true
  end.

(** The world after the locked lookup that [get] and [reg] start with. *)
Definition looked_up (name : string) (w : world) : world :=
  mk_world (ensured_heap name (reg (registry w)) (heap w))
           (mk_registry (rrc (registry w)) false
              (ensured_reg name (reg (registry w)) (heap w)))
           (trace w ++ [EvLock; EvUnlock]).

(** The blocks the registry points to, the events of the unload callbacks
    of a bulk operation, and what a bulk operation makes of the block [s]
    at the address [q]. *)
Definition registry_blocks (w : world) : list ptr :=
  (map_to_list (reg (registry w))).*2.

Definition registry_unload_events (w : world) : list event :=
  unload_events (heap w) (map_to_list (reg (registry w))).

Definition bulk_unloaded (w : world) (q : ptr) (s : shared) : shared :=
  if bool_decide (state s = loaded ∧ q ∈ registry_blocks w)
  then set_state unloaded s else s.

(** A request callback that loads at once: it registers the object at
    address 7 under the requested name. *)
Definition load_seven : string → list (string * objptr) :=
  λ name, [(name, Some 7)].

(** Two names: [a], loaded and held by one handle, and [b], whose load was
    requested and has not arrived. *)
Definition loaded_and_waiting : world :=
  mk_world [mk_shared loaded 1 (Some 7); mk_shared waiting_load 1 None]
           (mk_registry no_calls false {[ "a" := 0; "b" := 1 ]}) [].

(** [wf] as a check that computes. *)
Definition wf_check (w : world) : bool :=
  bool_decide
    (Forall (λ e : string * ptr, is_Some (heap w !! e.2))
       (map_to_list (reg (registry w)))
     ∧ NoDup (map_to_list (reg (registry w))).*2).

(** ** Further worlds used as concrete inputs *)

(** Two blocks, each loaded and held by one handle. *)
Definition two_loaded : world :=
  mk_world [mk_shared loaded 1 (Some 7); mk_shared loaded 1 (Some 8)]
           (mk_registry no_calls false {[ "a" := 0; "b" := 1 ]}) [].

(** ** What a program keeps true *)

(** The number of variables of the client that hold a handle of the block
    at [q]. *)
Definition live_handles (q : ptr) (vars : list resource_handle) : nat :=
  length (filter (λ h, shr h = Some q) vars).

(** The count of every block is the number of live handles of the block, as
    an [unsigned int]. *)
Definition counts_match (vars : list resource_handle) (w : world) : Prop :=
  ∀ q s, heap w !! q = Some s →
         count s = (Z.of_nat (live_handles q vars) mod uint_modulus)%Z.

Definition never_waiting (w : world) : Prop :=
  ∀ q s, heap w !! q = Some s → state s ≠ waiting_load.

(** Every block is the block of a name. *)
Definition all_named (w : world) : Prop :=
  ∀ q, q < length (heap w) → ∃ n, reg (registry w) !! n = Some q.

Record prog_inv (vars : list resource_handle) (w : world) : Prop := mk_prog_inv {
  pi_counts : counts_match vars w;
  pi_never : never_waiting w;
  pi_named : all_named w;
}.

(** [k] handles of the block at [q] destroyed one after the other. *)
Definition drop_times (k : nat) (q : ptr) : M unit :=
  for_each (replicate k (mk_handle (Some q))) (λ h, handle_dtor h ;; ret tt).

(** A loaded block held by three handles. *)
Definition three_handles : world :=
  mk_world [mk_shared loaded 3 (Some 7)]
           (mk_registry no_calls false {[ "a" := 0 ]}) [].

(** A loaded block held by one handle, at a moment when the mutex of the
    registry is locked. *)
Definition one_loaded_locked : world :=
  mk_world [mk_shared loaded 1 (Some 7)]
           (mk_registry no_calls true {[ "a" := 0 ]}) [EvLock].

(** * Properties *)

Lemma lookup_insert_same (h : list shared) q s s' :
  h !! q = Some s → <[q := s']> h !! q = Some s'.
Proof. intros H. apply list_lookup_insert_eq. by eapply lookup_lt_Some. Qed.

Ltac exec :=
  repeat first
    [ progress (cbn [bind ret emit deref update state_load state_store
                     count_fetch_add count_fetch_sub object_load object_store
                     call_ruc heap registry trace rrc mutex reg shr state count
                     object
                     set_state set_count set_object fst snd])
    | progress unfold bind, ret, emit, deref, update, state_load, state_store,
        count_fetch_add, count_fetch_sub, object_load, object_store, call_ruc
    | match goal with
      | H : ?h !! ?q = Some _ |- context [?h !! ?q] => rewrite H
      | H : ?h !! ?q = Some _ |- context [<[?q := ?x]> ?h !! ?q] =>
          rewrite (lookup_insert_same h q _ x H)
      | |- context [<[?q := ?x]> (<[?q := ?y]> ?h)] =>
          rewrite (list_insert_insert_eq h q x y)
      end ].

Lemma handle_dtor_some w q s :
  heap w !! q = Some s →
  handle_dtor (mk_handle (Some q)) w =
    Some (mk_handle None,
          with_events (drop_events s) (with_heap (<[q := dropped s]> (heap w)) w)).
Proof.
  intros Hq. unfold handle_dtor, dropped, drop_events, last_drop. exec.
  destruct s as [st c o]; simpl in *.
  case_bool_decide; simpl.
  - exec. case_bool_decide; simpl; exec.
    + unfold with_events, with_heap; simpl. done.
    + unfold with_events, with_heap; simpl. by rewrite app_nil_r.
  - unfold with_events, with_heap; simpl. by rewrite app_nil_r.
Qed.

Lemma handle_copy_some w q s :
  heap w !! q = Some s →
  handle_copy (mk_handle (Some q)) w =
    Some (mk_handle (Some q),
          with_heap (<[q := set_count ((count s + 1) mod uint_modulus)%Z s]> (heap w)) w).
Proof. intros Hq. unfold handle_copy. exec. done. Qed.

Lemma handle_from_shared_some w q s :
  heap w !! q = Some s →
  handle_from_shared (Some q) w =
    Some (mk_handle (Some q),
          with_heap (<[q := set_count ((count s + 1) mod uint_modulus)%Z s]> (heap w)) w).
Proof. intros Hq. unfold handle_from_shared. exec. done. Qed.

Lemma good_some w q s :
  heap w !! q = Some s →
  good (mk_handle (Some q)) w = Some (bool_decide (state s = loaded), w).
Proof. intros Hq. unfold good. exec. done. Qed.

Lemma arrow_some w q s :
  heap w !! q = Some s →
  arrow (mk_handle (Some q)) w = Some (object s, w).
Proof. intros Hq. unfold arrow. exec. done. Qed.

(** ** The handle: [good], drop and clone *)

(** C6: on a handle that refers to a block, [good()] returns [true] exactly
    when the state of the block is [loaded], and changes nothing; on the
    empty handle it dereferences [nullptr], which is undefined behaviour. *)
Theorem good_iff_state_loaded (w : world) (q : ptr) (s : shared) :
  heap w !! q = Some s →
  (∃ b, good (mk_handle (Some q)) w = Some (b, w)
        ∧ (b = true ↔ state s = loaded))
  ∧ good handle_empty w = None.
Proof.
  intros Hq. split; [|done].
  exists (bool_decide (state s = loaded)). split.
  - by apply good_some.
  - by rewrite bool_decide_eq_true.
Qed.

Lemma good_iff_state_loaded_witness :
  (∃ b, good (mk_handle (Some 0)) one_loaded = Some (b, one_loaded)
        ∧ (b = true ↔ loaded = loaded))
  ∧ good handle_empty one_loaded = None.
Proof.
  apply (good_iff_state_loaded one_loaded 0 (mk_shared loaded 1 (Some 7))).
  reflexivity.
Defined.

(** C2: the destructor of a handle calls the unload callback exactly when
    its [fetch_sub] takes the count from 1 to 0 while the state is
    [loaded]; it then calls it once, with the object of the block, and
    stores [unloaded].  In every other case it calls nothing and leaves the
    state alone; in particular it calls nothing when the count it leaves is
    above 0.  Destroying the empty handle does nothing. *)
Theorem last_drop_rule (w : world) (q : ptr) (s : shared) :
  heap w !! q = Some s →
  (∃ w' s',
     handle_dtor (mk_handle (Some q)) w = Some (handle_empty, w')
     ∧ heap w' !! q = Some s'
     ∧ (count s = 1%Z ∧ state s = loaded →
          trace w' = trace w ++ [EvUnload (object s)]
          ∧ state s' = unloaded ∧ count s' = 0%Z)
     ∧ (¬ (count s = 1%Z ∧ state s = loaded) →
          trace w' = trace w ∧ state s' = state s)
     ∧ ((0 < count s')%Z → trace w' = trace w))
  ∧ handle_dtor handle_empty w = Some (handle_empty, w).
Proof.
  intros Hq. split; [|done].
  eexists _, (dropped s). split; [by apply handle_dtor_some|].
  split; [by apply (lookup_insert_same _ _ s)|].
  unfold with_events, with_heap, dropped, drop_events, last_drop; simpl.
  destruct s as [st c o]; simpl in *.
  repeat case_bool_decide; simpl; subst; rewrite ?app_nil_r;
    split_and!; try tauto; try done.
Qed.

Lemma last_drop_rule_witness :
  (∃ w' s',
     handle_dtor (mk_handle (Some 0)) one_loaded = Some (handle_empty, w')
     ∧ heap w' !! 0 = Some s'
     ∧ (1%Z = 1%Z ∧ loaded = loaded →
          trace w' = trace one_loaded ++ [EvUnload (Some 7)]
          ∧ state s' = unloaded ∧ count s' = 0%Z)
     ∧ (¬ (1%Z = 1%Z ∧ loaded = loaded) →
          trace w' = trace one_loaded ∧ state s' = loaded)
     ∧ ((0 < count s')%Z → trace w' = trace one_loaded))
  ∧ handle_dtor handle_empty one_loaded = Some (handle_empty, one_loaded).
Proof.
  apply (last_drop_rule one_loaded 0 (mk_shared loaded 1 (Some 7))).
  reflexivity.
Defined.

(** C9: dropping the last handle (count 1) of a block whose state is not
    [loaded] stores count 0 in that block and does nothing else: no
    callback, the state and the object of the block as they were, every
    other block and the registry untouched. *)
Theorem last_drop_not_loaded (w : world) (q : ptr) (s : shared) :
  heap w !! q = Some s →
  count s = 1%Z →
  state s ≠ loaded →
  handle_dtor (mk_handle (Some q)) w =
    Some (handle_empty,
          mk_world (<[q := mk_shared (state s) 0 (object s)]> (heap w))
                   (registry w) (trace w)).
Proof.
  intros Hq Hc Hst. rewrite (handle_dtor_some w q s Hq).
  unfold with_events, with_heap, dropped, drop_events, last_drop; simpl.
  destruct s as [st c o]; simpl in *; subst.
  rewrite (bool_decide_eq_false_2 (st = loaded)) by done.
  rewrite andb_false_r, app_nil_r. done.
Qed.

Lemma last_drop_not_loaded_witness :
  handle_dtor (mk_handle (Some 0)) one_unloaded =
    Some (handle_empty,
          mk_world (<[0 := mk_shared unloaded 0 None]> (heap one_unloaded))
                   (registry one_unloaded) (trace one_unloaded)).
Proof.
  apply (last_drop_not_loaded one_unloaded 0 (mk_shared unloaded 1 None));
    [reflexivity | reflexivity | discriminate].
Defined.

(** C7: copying a live handle and destroying the copy gives back the world
    as it was, block, registry and trace (so no callback ran), and the
    original handle, which the two calls take by value, is not touched. *)
Theorem clone_drop_identity (w : world) (h1 : resource_handle) :
  counted h1 w →
  ∃ h2 w1,
    handle_copy h1 w = Some (h2, w1)
    ∧ shr h2 = shr h1
    ∧ handle_dtor h2 w1 = Some (handle_empty, w).
Proof.
  destruct h1 as [[q|]]; unfold counted; simpl.
  - intros (s & Hq & Hc).
    eexists _, _. split; [by apply handle_copy_some|]. split; [done|].
    erewrite handle_dtor_some
      by (simpl; by apply (lookup_insert_same _ _ s)).
    f_equal. f_equal.
    unfold with_events, with_heap, dropped, drop_events, last_drop; simpl.
    destruct w as [hp r tr]; simpl in *.
    destruct s as [st c o]; simpl in *.
    unfold uint_modulus in *.
    assert (Hne : ((c + 1) mod 2 ^ 32 ≠ 1)%Z).
    { destruct (decide (c = 2 ^ 32 - 1)%Z) as [->|]; [done|].
      rewrite Z.mod_small by lia. lia. }
    rewrite (bool_decide_eq_false_2 _ Hne). simpl.
    rewrite app_nil_r, list_insert_insert_eq.
    assert (Hback : (((c + 1) mod 2 ^ 32 - 1) mod 2 ^ 32 = c)%Z).
    { destruct (decide (c = 2 ^ 32 - 1)%Z) as [->|]; [done|].
      rewrite (Z.mod_small (c + 1)) by lia. rewrite Z.mod_small by lia. lia. }
    unfold set_count; simpl. rewrite Hback.
    by rewrite list_insert_id.
  - intros _. exists handle_empty, w. done.
Qed.

Lemma clone_drop_identity_witness :
  ∃ h2 w1,
    handle_copy (mk_handle (Some 0)) one_loaded = Some (h2, w1)
    ∧ shr h2 = Some 0
    ∧ handle_dtor h2 w1 = Some (handle_empty, one_loaded).
Proof.
  apply (clone_drop_identity one_loaded (mk_handle (Some 0))).
  exists (mk_shared loaded 1 (Some 7)). split; [reflexivity|].
  unfold uint_modulus; simpl; lia.
Defined.

(** ** The registry: [find_or_create_shared], [reg] and [get] *)

Lemma find_or_create_shared_eq name w :
  find_or_create_shared name w =
    Some (slot_of name (reg (registry w)) (heap w),
          mk_world (ensured_heap name (reg (registry w)) (heap w))
                   (mk_registry (rrc (registry w)) (mutex (registry w))
                      (ensured_reg name (reg (registry w)) (heap w)))
                   (trace w)).
Proof.
  unfold find_or_create_shared, slot_of, ensured_heap, ensured_reg, reg_find, bind.
  destruct w as [h [r m rg] tr]; simpl.
  destruct (rg !! name) as [p|]; done.
Qed.

Lemma ensured_wf name rg h :
  wf_store rg h → wf_store (ensured_reg name rg h) (ensured_heap name rg h).
Proof.
  intros [Hptr Hinj]. unfold ensured_reg, ensured_heap.
  destruct (rg !! name) as [p|] eqn:Hn; [done|].
  split; simpl.
  - intros n p. rewrite lookup_insert. case_decide as Hd.
    + intros [= <-]. rewrite lookup_app_r, Nat.sub_diag by done. by eexists.
    + intros Hp. destruct (Hptr _ _ Hp) as [s Hs].
      exists s. by apply lookup_app_l_Some.
  - intros n1 n2 p. rewrite !lookup_insert.
    repeat case_decide; subst; try done.
    + intros [= <-] Hp. destruct (Hptr _ _ Hp) as [s Hs].
      apply lookup_lt_Some in Hs. lia.
    + intros Hp [= <-]. destruct (Hptr _ _ Hp) as [s Hs].
      apply lookup_lt_Some in Hs. lia.
    + apply Hinj.
Qed.

Lemma ensured_slot name rg h :
  wf_store rg h →
  ensured_reg name rg h !! name = Some (slot_of name rg h)
  ∧ ∃ s, ensured_heap name rg h !! slot_of name rg h = Some s
         ∧ match rg !! name with
           | Some p => h !! p = Some s
           | None => s = mk_shared unloaded 0 None
           end.
Proof.
  intros [Hptr _]. unfold ensured_reg, ensured_heap, slot_of.
  destruct (rg !! name) as [p|] eqn:Hn; simpl.
  - split; [done|]. destruct (Hptr _ _ Hn) as [s Hs]. by exists s.
  - split; [by rewrite lookup_insert_eq|].
    eexists. split; [|done].
    by rewrite lookup_app_r, Nat.sub_diag.
Qed.

Lemma wf_store_insert rg h p s :
  wf_store rg h → wf_store rg (<[p := s]> h).
Proof.
  intros [Hptr Hinj]. split; [|done].
  intros n q Hq. apply lookup_lt_is_Some. rewrite length_insert.
  apply lookup_lt_is_Some. eauto.
Qed.

(** *** Counting events and loaded blocks *)

Lemma count_events_app f tr1 tr2 :
  count_events f (tr1 ++ tr2) = count_events f tr1 + count_events f tr2.
Proof. unfold count_events. by rewrite filter_app, length_app. Qed.

Lemma held_objects_cons o s h :
  held_objects o (s :: h) = (if holds o s then 1 else 0) + held_objects o h.
Proof.
  unfold held_objects. rewrite filter_cons.
  destruct (holds o s); by case_decide.
Qed.

Lemma held_objects_insert o h p s s' :
  h !! p = Some s →
  held_objects o (<[p := s']> h) + (if holds o s then 1 else 0)
  = held_objects o h + (if holds o s' then 1 else 0).
Proof.
  revert p. induction h as [|x h IH]; intros [|p] Hp; simplify_eq/=.
  - rewrite !held_objects_cons. lia.
  - rewrite !held_objects_cons. specialize (IH p Hp). lia.
Qed.

Lemma bind_Some {A B} (m : M A) (k : A → M B) w a w' :
  m w = Some (a, w') → bind m k w = k a w'.
Proof. unfold bind. by intros ->. Qed.

Lemma wf_new_world request : wf (new_world request).
Proof. split; simpl; intros *; by rewrite lookup_empty. Qed.

Lemma wf_check_wf w : wf_check w = true → wf w.
Proof.
  unfold wf_check. intros [Hall Hnodup]%bool_decide_eq_true.
  split.
  - intros n p Hp. apply elem_of_map_to_list in Hp.
    rewrite Forall_forall in Hall. apply (Hall (n, p)). done.
  - intros n1 n2 p H1 H2. apply elem_of_map_to_list in H1, H2.
    clear Hall. revert Hnodup H1 H2.
    induction (map_to_list (reg (registry w))) as [|[k v] l IH]; simpl.
    + by intros _ ?%elem_of_nil.
    + rewrite NoDup_cons. intros [Hnotin Hnodup].
      rewrite !elem_of_cons. intros [He1|H1] [He2|H2]; simplify_eq; auto.
      * exfalso. apply Hnotin. by apply (list_elem_of_fmap_2 snd) in H2.
      * exfalso. apply Hnotin. by apply (list_elem_of_fmap_2 snd) in H1.
Qed.

Lemma slot_of_present name rg h p : rg !! name = Some p → slot_of name rg h = p.
Proof. unfold slot_of. by intros ->. Qed.

Lemma ensured_heap_present name rg h p :
  rg !! name = Some p → ensured_heap name rg h = h.
Proof. unfold ensured_heap. by intros ->. Qed.

Lemma ensured_present name rg h p :
  rg !! name = Some p → ensured_reg name rg h = rg.
Proof. unfold ensured_reg. by intros ->. Qed.

(** ** The lock, [reg] and [get] *)

(** The destructor of a [lock_guard] that does not hold the mutex. *)
Lemma lock_guard_dtor_free w :
  mutex (registry w) = false → lock_guard_dtor w = None.
Proof. unfold lock_guard_dtor. by intros ->. Qed.

Lemma lock_find_unlock {A} name (k : ptr → M A) w :
  unlocked w →
  (lock_guard_ctor ;;
   do p <- find_or_create_shared name;
   lock_guard_dtor ;; k p) w
  = k (slot_of name (reg (registry w)) (heap w)) (looked_up name w).
Proof.
  intros Hu. unfold unlocked in Hu.
  unfold bind at 1. unfold lock_guard_ctor. rewrite Hu.
  unfold bind at 1. rewrite find_or_create_shared_eq.
  unfold bind at 1. unfold lock_guard_dtor, looked_up. simpl.
  by rewrite <- app_assoc.
Qed.

Lemma lock_held {A} (k : M A) w :
  mutex (registry w) = true → (lock_guard_ctor ;; k) w = None.
Proof. intros Hm. unfold bind, lock_guard_ctor. by rewrite Hm. Qed.

Lemma get_requests_looked_up name w s :
  wf w →
  heap (looked_up name w) !! slot_of name (reg (registry w)) (heap w) = Some s →
  get_requests w name = bool_decide (state s = unloaded).
Proof.
  intros Hwf Hs. destruct (ensured_slot name _ _ Hwf) as (_ & s' & Hs' & Hcase).
  simpl in Hs. rewrite Hs in Hs'. simplify_eq.
  unfold get_requests. destruct (reg (registry w) !! name) as [p|].
  - by rewrite Hcase.
  - by subst.
Qed.

Lemma looked_up_slot name w :
  wf w →
  ∃ s, heap (looked_up name w) !! slot_of name (reg (registry w)) (heap w) = Some s
       ∧ get_requests w name = bool_decide (state s = unloaded).
Proof.
  intros Hwf. destruct (ensured_slot name _ _ Hwf) as (_ & s & Hs & _).
  exists s. split; [done|]. by apply get_requests_looked_up.
Qed.

(** The world the statements of [reg] leave, given the block [s] found or
    created. *)
Lemma lotus_reg_body_eq name o w s :
  unlocked w →
  ensured_heap name (reg (registry w)) (heap w)
    !! slot_of name (reg (registry w)) (heap w) = Some s →
  lotus_reg_body name o w =
    Some (tt, mk_world
                (<[slot_of name (reg (registry w)) (heap w)
                   := mk_shared loaded (count s) o]>
                   (ensured_heap name (reg (registry w)) (heap w)))
                (mk_registry (rrc (registry w)) false
                   (ensured_reg name (reg (registry w)) (heap w)))
                (trace w ++ [EvLock; EvUnlock])).
Proof.
  intros Hu Hs. unfold lotus_reg_body. rewrite lock_find_unlock by done.
  unfold looked_up. exec. done.
Qed.

(** When the statements of [reg] are through, the mutex is free. *)
Lemma lotus_reg_body_free name o w w1 :
  lotus_reg_body name o w = Some (tt, w1) → mutex (registry w1) = false.
Proof.
  unfold lotus_reg_body. destruct (mutex (registry w)) eqn:Hm.
  - by rewrite lock_held.
  - rewrite lock_find_unlock by done.
    unfold object_store, state_store, update, bind, looked_up. simpl.
    destruct (_ !! _) as [s|]; [|done]. simpl.
    destruct (_ !! _) as [s'|]; [|done]. by intros [= <-].
Qed.

(** [reg] is undefined on every input: if its statements get through, the
    mutex is free when the scope ends, and [lock] is destroyed again. *)
Lemma lotus_reg_undefined name o w : lotus_reg name o w = None.
Proof.
  unfold lotus_reg, bind.
  destruct (lotus_reg_body name o w) as [[[] w1]|] eqn:Hb; [|done].
  apply lock_guard_dtor_free. by eapply lotus_reg_body_free.
Qed.

(** The request callback: one that returns without calling [reg], and one
    that calls [reg]. *)
Lemma call_rrc_deferred name w :
  rrc (registry w) name = [] →
  call_rrc name w
  = Some (tt, mk_world (heap w) (registry w) (trace w ++ [EvRequest name])).
Proof.
  intros Hr. unfold call_rrc, bind, emit. simpl. by rewrite Hr.
Qed.

Lemma call_rrc_reentrant name w :
  rrc (registry w) name ≠ [] → call_rrc name w = None.
Proof.
  intros Hr. unfold call_rrc, bind, emit. simpl.
  destruct (rrc (registry w) name) as [|c calls]; [done|].
  simpl. unfold bind. by rewrite lotus_reg_undefined.
Qed.

Lemma call_rrc_Some name w w' :
  call_rrc name w = Some (tt, w') →
  rrc (registry w) name = []
  ∧ w' = mk_world (heap w) (registry w) (trace w ++ [EvRequest name]).
Proof.
  intros Hrun. destruct (rrc (registry w) name) as [|c calls] eqn:Hr.
  - rewrite (call_rrc_deferred name w Hr) in Hrun. by simplify_eq.
  - rewrite call_rrc_reentrant in Hrun; [done|]. by rewrite Hr.
Qed.

Lemma for_each_rrc_deferred names :
  ∀ w,
    (∀ k, k ∈ names → rrc (registry w) k = []) →
    for_each names call_rrc w
    = Some (tt, mk_world (heap w) (registry w)
                  (trace w ++ map EvRequest names)).
Proof.
  induction names as [|k names IH]; intros w Hdef.
  - simpl. unfold ret. rewrite app_nil_r. by destruct w.
  - cbn [for_each map].
    rewrite (bind_Some _ _ _ _ _ (call_rrc_deferred k w (Hdef k ltac:(by left)))).
    rewrite IH; simpl.
    + by rewrite <- app_assoc.
    + intros k' Hk'. apply Hdef. by right.
Qed.

Lemma for_each_rrc_Some names :
  ∀ w w',
    for_each names call_rrc w = Some (tt, w') →
    (∀ k, k ∈ names → rrc (registry w) k = [])
    ∧ w' = mk_world (heap w) (registry w) (trace w ++ map EvRequest names).
Proof.
  induction names as [|k names IH]; intros w w' Hrun.
  - cbv [for_each ret] in Hrun. assert (w' = w) as -> by congruence. split.
    + by intros k ?%elem_of_nil.
    + simpl. rewrite app_nil_r. by destruct w.
  - cbn [for_each] in Hrun. unfold bind in Hrun.
    destruct (call_rrc k w) as [[[] w1]|] eqn:Hcb; [|done].
    apply call_rrc_Some in Hcb as [Hr ->].
    apply IH in Hrun as [Hrest ->]. simpl in *. split.
    + intros k' [->|Hk']%elem_of_cons; [done|by apply Hrest].
    + by rewrite <- app_assoc.
Qed.

(** The statements of [get] for a name whose block is not unloaded: no
    callback runs. *)
Lemma lotus_get_body_present name w p s :
  unlocked w →
  reg (registry w) !! name = Some p →
  heap w !! p = Some s →
  state s ≠ unloaded →
  lotus_get_body name w =
    Some (mk_handle (Some p),
          mk_world (<[p := set_count ((count s + 1) mod uint_modulus)%Z s]> (heap w))
                   (mk_registry (rrc (registry w)) false (reg (registry w)))
                   (trace w ++ [EvLock; EvUnlock])).
Proof.
  intros Hu Hn Hs Hst. unfold lotus_get_body. rewrite lock_find_unlock by done.
  unfold looked_up, slot_of, ensured_heap, ensured_reg. rewrite Hn.
  unfold handle_from_shared. exec.
  rewrite (bool_decide_eq_false_2 _ Hst). exec. done.
Qed.

(** The statements of [get], in their parts: the locked lookup, the request
    callback if the block is unloaded, the handle. *)
Lemma lotus_get_body_eq name w s w1 s1 :
  unlocked w →
  heap (looked_up name w) !! slot_of name (reg (registry w)) (heap w) = Some s →
  (if bool_decide (state s = unloaded) then call_rrc name else ret tt)
    (looked_up name w) = Some (tt, w1) →
  heap w1 !! slot_of name (reg (registry w)) (heap w) = Some s1 →
  lotus_get_body name w =
    Some (mk_handle (Some (slot_of name (reg (registry w)) (heap w))),
          mk_world
            (<[slot_of name (reg (registry w)) (heap w)
               := set_count ((count s1 + 1) mod uint_modulus)%Z s1]> (heap w1))
            (registry w1) (trace w1)).
Proof.
  intros Hu Hs Hcb Hs1. unfold lotus_get_body. rewrite lock_find_unlock by done.
  set (p := slot_of name (reg (registry w)) (heap w)) in *.
  assert (Hld : state_load p (looked_up name w) = Some (state s, looked_up name w)).
  { unfold state_load, bind, deref. by rewrite Hs. }
  rewrite (bind_Some _ _ _ _ _ Hld), (bind_Some _ _ _ _ _ Hcb).
  by rewrite (handle_from_shared_some w1 p s1 Hs1).
Qed.

(** The statements of [get] for a name that is new or whose block is
    unloaded, with a callback that returns without calling [reg]. *)
Lemma lotus_get_body_deferred name w s :
  unlocked w →
  rrc (registry w) name = [] →
  heap (looked_up name w) !! slot_of name (reg (registry w)) (heap w) = Some s →
  state s = unloaded →
  lotus_get_body name w =
    Some (mk_handle (Some (slot_of name (reg (registry w)) (heap w))),
          mk_world
            (<[slot_of name (reg (registry w)) (heap w)
               := set_count ((count s + 1) mod uint_modulus)%Z s]>
               (ensured_heap name (reg (registry w)) (heap w)))
            (mk_registry (rrc (registry w)) false
               (ensured_reg name (reg (registry w)) (heap w)))
            (trace w ++ [EvLock; EvUnlock; EvRequest name])).
Proof.
  intros Hu Hr Hs Hst.
  rewrite (lotus_get_body_eq name w s
             (mk_world (heap (looked_up name w)) (registry (looked_up name w))
                (trace (looked_up name w) ++ [EvRequest name])) s Hu Hs).
  - cbn [heap registry trace rrc reg looked_up]. by rewrite <- !app_assoc.
  - rewrite (bool_decide_eq_true_2 _ Hst). by apply call_rrc_deferred.
  - done.
Qed.

(** The statements of [get] with a callback that calls [reg]: the [reg] of
    the callback is undefined. *)
Lemma lotus_get_body_reentrant name w :
  wf w → unlocked w →
  get_requests w name = true →
  rrc (registry w) name ≠ [] →
  lotus_get_body name w = None.
Proof.
  intros Hwf Hu Hreq Hr. unfold lotus_get_body.
  rewrite lock_find_unlock by done.
  destruct (looked_up_slot name w Hwf) as (s & Hs & Hgr).
  rewrite Hreq in Hgr. symmetry in Hgr.
  assert (Hld : state_load (slot_of name (reg (registry w)) (heap w))
                  (looked_up name w) = Some (state s, looked_up name w)).
  { unfold state_load, bind, deref. by rewrite Hs. }
  rewrite (bind_Some _ _ _ _ _ Hld), Hgr.
  unfold bind. by rewrite call_rrc_reentrant.
Qed.

(** When the statements of [get] are through, the mutex is free. *)
Lemma lotus_get_body_free name w h w1 :
  lotus_get_body name w = Some (h, w1) → mutex (registry w1) = false.
Proof.
  unfold lotus_get_body. destruct (mutex (registry w)) eqn:Hm.
  - by rewrite lock_held.
  - rewrite lock_find_unlock by done.
    set (p := slot_of name (reg (registry w)) (heap w)).
    unfold bind at 1.
    destruct (state_load p (looked_up name w)) as [[st w0]|] eqn:Hld; [|done].
    assert (w0 = looked_up name w) as ->.
    { unfold state_load, bind, deref, ret in Hld.
      destruct (_ !! _); by simplify_eq. }
    unfold bind at 1.
    destruct ((if bool_decide (st = unloaded) then call_rrc name else ret tt)
                (looked_up name w)) as [[[] w2]|] eqn:Hcb; [|done].
    assert (registry w2 = registry (looked_up name w)) as Hreg.
    { case_bool_decide.
      - apply call_rrc_Some in Hcb as [_ ->]. done.
      - cbv [ret] in Hcb. by simplify_eq. }
    unfold handle_from_shared, count_fetch_add, update, deref, bind, ret.
    destruct (heap w2 !! p) as [s|]; [|done]. simpl.
    destruct (heap w2 !! p) as [s'|]; [|done].
    intros [= <- <-]. simpl. by rewrite Hreg.
Qed.

(** [get] is undefined on every input, for the same reason as [reg]. *)
Lemma lotus_get_undefined name w : lotus_get name w = None.
Proof.
  unfold lotus_get. unfold bind at 1.
  destruct (lotus_get_body name w) as [[h w1]|] eqn:Hb; [|done].
  unfold bind. rewrite lock_guard_dtor_free; [done|].
  by eapply lotus_get_body_free.
Qed.

(** ** The bulk operations *)

Lemma slot_loaded_insert_ne h p q x :
  p ≠ q → slot_loaded (<[p := x]> h) q = slot_loaded h q.
Proof. intros Hne. unfold slot_loaded. by rewrite list_lookup_insert_ne. Qed.

Lemma slot_object_insert_ne h p q x :
  p ≠ q → slot_object (<[p := x]> h) q = slot_object h q.
Proof. intros Hne. unfold slot_object. by rewrite list_lookup_insert_ne. Qed.

Lemma loaded_entries_insert_notin h p x (rest : list (string * ptr)) :
  p ∉ rest.*2 → loaded_entries (<[p := x]> h) rest = loaded_entries h rest.
Proof.
  unfold loaded_entries. induction rest as [|[n q] rest IH]; [done|].
  rewrite fmap_cons, not_elem_of_cons. simpl. intros [Hne Hnotin].
  rewrite !filter_cons. simpl. rewrite slot_loaded_insert_ne by done.
  rewrite IH by done. done.
Qed.

Lemma unload_events_insert_notin h p x (rest : list (string * ptr)) :
  p ∉ rest.*2 → unload_events (<[p := x]> h) rest = unload_events h rest.
Proof.
  unfold unload_events. intros Hnotin.
  rewrite loaded_entries_insert_notin by done.
  apply map_ext_in. intros [n q] Hin. simpl.
  rewrite slot_object_insert_ne; [done|].
  intros ->. apply Hnotin. apply list_elem_of_In in Hin.
  apply list_elem_of_filter in Hin as [_ Hin].
  by apply (list_elem_of_fmap_2 snd) in Hin.
Qed.

Lemma loaded_entries_cons h n p rest :
  loaded_entries h ((n, p) :: rest)
  = if slot_loaded h p then (n, p) :: loaded_entries h rest
    else loaded_entries h rest.
Proof.
  unfold loaded_entries. rewrite filter_cons. simpl.
  destruct (slot_loaded h p); by case_decide.
Qed.

Ltac same_decision :=
  match goal with
  | |- (if bool_decide ?P then _ else _) = (if bool_decide ?Q then _ else _) =>
      rewrite (bool_decide_ext P Q); [reflexivity|]
  end.

(** The loop of [reload_registry] over entries that point to blocks, no two
    to the same one: what it returns, the trace it writes, and the heap it
    leaves, block by block. *)
Lemma reload_scan_spec entries :
  ∀ w acc,
    (∀ e, e ∈ entries → is_Some (heap w !! e.2)) →
    NoDup entries.*2 →
    ∃ h',
      reload_scan entries acc w =
        Some (acc ++ (loaded_entries (heap w) entries).*1,
              mk_world h' (registry w)
                (trace w ++ unload_events (heap w) entries))
      ∧ length h' = length (heap w)
      ∧ (∀ q s, heap w !! q = Some s →
           h' !! q = Some (if bool_decide (state s = loaded ∧ q ∈ entries.*2)
                           then set_state unloaded s else s))
      ∧ (∀ o, count_events (is_unload_of o) (unload_events (heap w) entries)
              + held_objects o h' = held_objects o (heap w)).
Proof.
  induction entries as [|[n p] rest IH]; intros w acc Hvalid Hnodup.
  - exists (heap w). simpl. unfold unload_events, loaded_entries. simpl.
    rewrite !app_nil_r. destruct w. split; [done|]. split; [done|].
    split; [|done]. intros q s Hq. rewrite Hq. f_equal.
    rewrite bool_decide_eq_false_2; [done|].
    intros [_ Hin]. by apply elem_of_nil in Hin.
  - rewrite fmap_cons in Hnodup. apply NoDup_cons in Hnodup as [Hnotin Hnodup].
    destruct (Hvalid (n, p)) as [s Hs]; [left|]. simpl in Hs.
    destruct (decide (state s = loaded)) as [Hst|Hst].
    + set (w1 := mk_world (<[p := set_state unloaded s]> (heap w)) (registry w)
                   (trace w ++ [EvUnload (object s)])).
      destruct (IH w1 (acc ++ [n])) as (h' & Hrun & Hlen & Hpt & Hcnt);
        [|done|].
      { intros e He. simpl. apply lookup_lt_is_Some. rewrite length_insert.
        apply lookup_lt_is_Some. apply Hvalid. by right. }
      exists h'. simpl in Hrun, Hlen, Hpt, Hcnt.
      rewrite loaded_entries_insert_notin in Hrun by done.
      rewrite unload_events_insert_notin in Hrun, Hcnt by done.
      assert (Hl : slot_loaded (heap w) p = true).
      { unfold slot_loaded. rewrite Hs. by apply bool_decide_eq_true. }
      assert (Hev : unload_events (heap w) ((n, p) :: rest)
                    = EvUnload (object s) :: unload_events (heap w) rest).
      { unfold unload_events. rewrite loaded_entries_cons, Hl. simpl.
        unfold slot_object. by rewrite Hs. }
      split; [|split; [|split]].
      * simpl. exec. rewrite (bool_decide_eq_true_2 _ Hst). exec.
        fold w1. rewrite Hrun. rewrite loaded_entries_cons, Hl, Hev. simpl.
        by rewrite <- !app_assoc.
      * by rewrite Hlen, length_insert.
      * intros q s0 Hq. destruct (decide (q = p)) as [->|Hne].
        -- assert (s0 = s) as -> by congruence.
           rewrite (Hpt p (set_state unloaded s))
             by (by apply (lookup_insert_same _ _ s)).
           simpl. rewrite bool_decide_eq_true_2; [done|].
           split; [done|]. rewrite ?fmap_cons. by left.
        -- rewrite (Hpt q s0) by (by rewrite list_lookup_insert_ne).
           f_equal.
           same_decision.
           rewrite ?fmap_cons. simpl. rewrite elem_of_cons. tauto.
      * intros o. rewrite Hev. specialize (Hcnt o).
        pose proof (held_objects_insert o _ _ _ (set_state unloaded s) Hs) as Hi.
        change (EvUnload (object s) :: unload_events (heap w) rest)
          with ([EvUnload (object s)] ++ unload_events (heap w) rest).
        rewrite count_events_app.
        assert (count_events (is_unload_of o) [EvUnload (object s)]
                = if holds o s then 1 else 0) as ->.
        { unfold count_events, holds. rewrite filter_cons, filter_nil. simpl.
          rewrite (bool_decide_eq_true_2 _ Hst). simpl.
          by case_decide; case_bool_decide. }
        assert (holds o (set_state unloaded s) = false) as Hh by done.
        rewrite Hh in Hi. lia.
    + destruct (IH w acc) as (h' & Hrun & Hlen & Hpt & Hcnt); [|done|].
      { intros e He. apply Hvalid. by right. }
      exists h'.
      assert (Hl : slot_loaded (heap w) p = false).
      { unfold slot_loaded. rewrite Hs. by apply bool_decide_eq_false. }
      assert (Hev : unload_events (heap w) ((n, p) :: rest)
                    = unload_events (heap w) rest).
      { unfold unload_events. by rewrite loaded_entries_cons, Hl. }
      split; [|split; [|split]].
      * simpl. exec. rewrite (bool_decide_eq_false_2 _ Hst).
        rewrite Hrun. by rewrite loaded_entries_cons, Hl, Hev.
      * done.
      * intros q s0 Hq. rewrite (Hpt q s0 Hq). f_equal.
        same_decision.
        rewrite ?fmap_cons. simpl. rewrite elem_of_cons.
        split; [tauto|].
        intros [Hs0 [->|Hin]]; [|done]. congruence.
      * intros o. by rewrite Hev.
Qed.

Lemma unload_scan_reload_scan entries :
  ∀ w acc, unload_scan entries w
           = (do _ <- reload_scan entries acc; ret tt) w.
Proof.
  induction entries as [|[n p] rest IH]; intros w acc; [done|].
  simpl. unfold bind in *.
  destruct (state_load p w) as [[st w1]|]; [|done].
  case_bool_decide; [|apply IH].
  destruct (state_store p unloaded w1) as [[[] w2]|]; [|done].
  destruct (object_load p w2) as [[o w3]|]; [|done].
  destruct (call_ruc o w3) as [[[] w4]|]; [|done].
  apply IH.
Qed.

Lemma registry_entries_valid w :
  wf w →
  (∀ e, e ∈ map_to_list (reg (registry w)) → is_Some (heap w !! e.2))
  ∧ NoDup (map_to_list (reg (registry w))).*2.
Proof.
  intros [Hptr Hinj]. split.
  - intros [n p] He. apply elem_of_map_to_list in He. by eapply Hptr.
  - apply NoDup_fmap_2_strong; [|apply NoDup_map_to_list].
    intros [n1 p1] [n2 p2] H1 H2. simpl. intros <-.
    apply elem_of_map_to_list in H1, H2. f_equal. by eapply Hinj.
Qed.

Lemma count_events_cons f e tr :
  count_events f (e :: tr) = (if f e then 1 else 0) + count_events f tr.
Proof.
  unfold count_events. rewrite filter_cons.
  destruct (f e); by case_decide.
Qed.


Lemma callbacks_with_mutex_app held tr1 tr2 :
  callbacks_with_mutex held (tr1 ++ tr2)
  = callbacks_with_mutex held tr1
    ++ callbacks_with_mutex (mutex_after held tr1) tr2.
Proof.
  revert held. induction tr1 as [|e tr1 IH]; intros held; [done|].
  destruct e; simpl; by rewrite IH.
Qed.

Lemma mutex_after_app held tr1 tr2 :
  mutex_after held (tr1 ++ tr2) = mutex_after (mutex_after held tr1) tr2.
Proof.
  revert held. induction tr1 as [|e tr1 IH]; intros held; [done|].
  destruct e; simpl; by rewrite IH.
Qed.

Lemma unlocks_unheld_app held tr1 tr2 :
  unlocks_unheld held (tr1 ++ tr2)
  = unlocks_unheld held tr1 + unlocks_unheld (mutex_after held tr1) tr2.
Proof.
  revert held. induction tr1 as [|e tr1 IH]; intros held; [done|].
  destruct e; simpl; rewrite IH; lia.
Qed.

Lemma unload_events_mutex held h entries :
  callbacks_with_mutex held (unload_events h entries)
  = map (λ e, (e, held)) (unload_events h entries)
  ∧ mutex_after held (unload_events h entries) = held.
Proof.
  unfold unload_events.
  induction (loaded_entries h entries) as [|e l [IH1 IH2]]; [done|].
  simpl. by rewrite IH1, IH2.
Qed.

Lemma bulk_unloaded_not_loaded w n p s :
  reg (registry w) !! n = Some p →
  state (bulk_unloaded w p s) ≠ loaded.
Proof.
  intros Hn. unfold bulk_unloaded. case_bool_decide as Hd; [done|].
  intros Hst. apply Hd. split; [done|].
  unfold registry_blocks. apply elem_of_map_to_list in Hn.
  by apply (list_elem_of_fmap_2 snd) in Hn.
Qed.

Lemma loaded_entries_nil h (entries : list (string * ptr)) :
  (∀ e, e ∈ entries → slot_loaded h e.2 = false) →
  loaded_entries h entries = [].
Proof.
  intros Hall. unfold loaded_entries.
  induction entries as [|e entries IH]; [done|].
  rewrite filter_cons. rewrite (Hall e) by (by left).
  case_decide; [done|]. apply IH. intros e' He'. apply Hall. by right.
Qed.


(** The two bulk operations up to the release of the lock: what they
    return, the world they leave, and the unloads against the loaded
    blocks. *)
Lemma bulk_unload_eq w :
  wf w → unlocked w →
  ∃ h',
    reload_unload_phase w =
      Some ((loaded_in_registry w).*1,
            mk_world h'
              (mk_registry (rrc (registry w)) false (reg (registry w)))
              (trace w ++ [EvLock] ++ registry_unload_events w ++ [EvUnlock]))
    ∧ unload_registry w =
        Some (tt, mk_world h'
                    (mk_registry (rrc (registry w)) false (reg (registry w)))
                    (trace w ++ [EvLock] ++ registry_unload_events w
                       ++ [EvUnlock]))
    ∧ length h' = length (heap w)
    ∧ (∀ q s, heap w !! q = Some s → h' !! q = Some (bulk_unloaded w q s))
    ∧ (∀ o, count_events (is_unload_of o) (registry_unload_events w)
            + held_objects o h' = held_objects o (heap w)).
Proof.
  intros Hwf Hu. destruct (registry_entries_valid w Hwf) as [Hvalid Hnodup].
  set (wl := mk_world (heap w)
               (mk_registry (rrc (registry w)) true (reg (registry w)))
               (trace w ++ [EvLock])).
  destruct (reload_scan_spec _ wl [] Hvalid Hnodup)
    as (h' & Hrun & Hlen & Hpt & Hcnt).
  simpl in Hrun, Hlen, Hpt, Hcnt.
  assert (Hlock : lock_guard_ctor w = Some (tt, wl)).
  { unfold lock_guard_ctor. unfold unlocked in Hu. by rewrite Hu. }
  exists h'. split; [|split; [|split; [done|split]]].
  - unfold reload_unload_phase. rewrite (bind_Some _ _ _ _ _ Hlock).
    unfold bind at 1. unfold reg_entries. simpl.
    rewrite (bind_Some _ _ _ _ _ Hrun).
    unfold lock_guard_dtor, bind, ret, registry_unload_events,
      loaded_in_registry. simpl.
    by rewrite <- !app_assoc.
  - unfold unload_registry. rewrite (bind_Some _ _ _ _ _ Hlock).
    unfold bind at 1. unfold reg_entries. simpl.
    unfold bind at 1. rewrite (unload_scan_reload_scan _ _ []).
    rewrite (bind_Some _ _ _ _ _ Hrun).
    unfold lock_guard_dtor, bind, ret, registry_unload_events. simpl.
    by rewrite <- !app_assoc.
  - intros q s Hq. by apply Hpt.
  - exact Hcnt.
Qed.

(** When the locked part of [reload_registry] is through, the mutex is
    free. *)
Lemma reload_unload_phase_free w names w1 :
  reload_unload_phase w = Some (names, w1) → mutex (registry w1) = false.
Proof.
  unfold reload_unload_phase, bind, reg_entries, ret.
  destruct (lock_guard_ctor w) as [[[] wl]|]; [|done].
  destruct (reload_scan _ [] wl) as [[tl ws]|]; [|done].
  unfold lock_guard_dtor. destruct (mutex (registry ws)); [|done].
  by intros [= _ <-].
Qed.

(** [reload_registry] is undefined on every input: if its loops get
    through, the mutex is free when the scope ends, and [lock] is destroyed
    again. *)
Lemma reload_registry_undefined w : reload_registry w = None.
Proof.
  unfold reload_registry. unfold bind at 1.
  destruct (reload_unload_phase w) as [[names w1]|] eqn:Hph; [|done].
  unfold reload_request_phase, bind.
  destruct (for_each names call_rrc w1) as [[[] w2]|] eqn:Hfe; [|done].
  apply for_each_rrc_Some in Hfe as [_ ->].
  apply lock_guard_dtor_free. simpl. by eapply reload_unload_phase_free.
Qed.

(** The names [reload_registry] collects and the unloads of a bulk
    operation, without the order of the walk. *)
Lemma loaded_names_spec w k :
  k ∈ (loaded_in_registry w).*1
  ↔ ∃ p s, reg (registry w) !! k = Some p ∧ heap w !! p = Some s
           ∧ state s = loaded.
Proof.
  unfold loaded_in_registry, loaded_entries. split.
  - intros ([k' p] & -> & Hin)%list_elem_of_fmap.
    apply list_elem_of_filter in Hin as [Hl Hin]. simpl in *.
    apply elem_of_map_to_list in Hin. unfold slot_loaded in Hl.
    destruct (heap w !! p) as [s|] eqn:Hs; [|done].
    apply bool_decide_eq_true in Hl. by exists p, s.
  - intros (p & s & Hk & Hs & Hst).
    apply (list_elem_of_fmap_2 fst _ (k, p)).
    apply list_elem_of_filter. split.
    + simpl. unfold slot_loaded. rewrite Hs. by apply bool_decide_eq_true.
    + by apply elem_of_map_to_list.
Qed.


Lemma registry_unload_events_spec w e :
  e ∈ registry_unload_events w
  ↔ ∃ k p s, reg (registry w) !! k = Some p ∧ heap w !! p = Some s
             ∧ state s = loaded ∧ e = EvUnload (object s).
Proof.
  unfold registry_unload_events, unload_events, loaded_entries. split.
  - intros Hin. apply list_elem_of_In, in_map_iff in Hin as ([k p] & <- & Hin).
    apply list_elem_of_In, list_elem_of_filter in Hin as [Hl Hin]. simpl in *.
    apply elem_of_map_to_list in Hin. unfold slot_loaded, slot_object in *.
    destruct (heap w !! p) as [s|] eqn:Hs; [|done].
    apply bool_decide_eq_true in Hl. by exists k, p, s.
  - intros (k & p & s & Hk & Hs & Hst & ->).
    apply list_elem_of_In, in_map_iff. exists (k, p). split.
    + simpl. unfold slot_object. by rewrite Hs.
    + apply list_elem_of_In, list_elem_of_filter. split.
      * simpl. unfold slot_loaded. rewrite Hs. by apply bool_decide_eq_true.
      * by apply elem_of_map_to_list.
Qed.

Lemma registry_unload_events_count w :
  count_events is_unload (registry_unload_events w)
  = length (loaded_in_registry w)
  ∧ count_events is_request (registry_unload_events w) = 0
  ∧ count_events is_lock (registry_unload_events w) = 0
  ∧ count_events is_unlock (registry_unload_events w) = 0.
Proof.
  unfold registry_unload_events, loaded_in_registry, unload_events.
  induction (loaded_entries _ _) as [|e l (IH1 & IH2 & IH3 & IH4)]; [done|].
  simpl. rewrite !count_events_cons. simpl. by rewrite IH1, IH2, IH3, IH4.
Qed.


Lemma request_events_mutex held (names : list string) :
  callbacks_with_mutex held (map EvRequest names)
  = map (λ k, (EvRequest k, held)) names
  ∧ mutex_after held (map EvRequest names) = held.
Proof.
  induction names as [|k names [IH1 IH2]]; [done|].
  simpl. by rewrite IH1, IH2.
Qed.

(** The events of a bulk operation up to the release of the lock: one lock,
    one unlock, and in between the unload callbacks, each called with the
    mutex locked. *)
Lemma bulk_events_mutex w :
  callbacks_with_mutex false
    ([EvLock] ++ registry_unload_events w ++ [EvUnlock])
  = map (λ e, (e, true)) (registry_unload_events w)
  ∧ mutex_after false ([EvLock] ++ registry_unload_events w ++ [EvUnlock])
    = false
  ∧ unlocks_unheld false ([EvLock] ++ registry_unload_events w ++ [EvUnlock])
    = 0.
Proof.
  destruct (unload_events_mutex true (heap w) (map_to_list (reg (registry w))))
    as [Hc Hm].
  fold (registry_unload_events w) in Hc, Hm.
  cbn [app callbacks_with_mutex mutex_after unlocks_unheld].
  rewrite callbacks_with_mutex_app, mutex_after_app, unlocks_unheld_app, Hc, Hm.
  simpl. rewrite app_nil_r. split; [done|]. split; [done|].
  assert (Hno : ∀ l : list (string * ptr),
            unlocks_unheld true
              (map (λ e, EvUnload (slot_object (heap w) e.2)) l) = 0).
  { induction l as [|e l IH]; [done|]. simpl. exact IH. }
  unfold registry_unload_events, unload_events. by rewrite Hno.
Qed.

(** The statements of [get] where no callback calls [reg]: the block is not
    unloaded, or the request callback returns without calling [reg]. *)
Lemma lotus_get_body_defined name w :
  wf w → unlocked w →
  (get_requests w name = true → rrc (registry w) name = []) →
  ∃ s,
    heap (looked_up name w) !! slot_of name (reg (registry w)) (heap w) = Some s
    ∧ get_requests w name = bool_decide (state s = unloaded)
    ∧ lotus_get_body name w =
        Some (mk_handle (Some (slot_of name (reg (registry w)) (heap w))),
              mk_world
                (<[slot_of name (reg (registry w)) (heap w)
                   := set_count ((count s + 1) mod uint_modulus)%Z s]>
                   (ensured_heap name (reg (registry w)) (heap w)))
                (mk_registry (rrc (registry w)) false
                   (ensured_reg name (reg (registry w)) (heap w)))
                (trace w ++ [EvLock; EvUnlock]
                   ++ (if get_requests w name then [EvRequest name] else []))).
Proof.
  intros Hwf Hu Hdef. destruct (looked_up_slot name w Hwf) as (s & Hs & Hgr).
  exists s. split; [done|]. split; [done|].
  destruct (get_requests w name) eqn:Hreq.
  - symmetry in Hgr. apply bool_decide_eq_true in Hgr.
    by rewrite (lotus_get_body_deferred name w s Hu (Hdef eq_refl) Hs Hgr).
  - rewrite (lotus_get_body_eq name w s (looked_up name w) s Hu Hs).
    + done.
    + by rewrite <- Hgr.
    + done.
Qed.

(** The statements of [reg] on a well-formed world with the mutex free. *)
Lemma lotus_reg_body_defined name o w :
  wf w → unlocked w →
  ∃ s,
    ensured_heap name (reg (registry w)) (heap w)
      !! slot_of name (reg (registry w)) (heap w) = Some s
    ∧ match reg (registry w) !! name with
      | Some p => heap w !! p = Some s
      | None => s = mk_shared unloaded 0 None
      end
    ∧ lotus_reg_body name o w =
        Some (tt, mk_world
                    (<[slot_of name (reg (registry w)) (heap w)
                       := mk_shared loaded (count s) o]>
                       (ensured_heap name (reg (registry w)) (heap w)))
                    (mk_registry (rrc (registry w)) false
                       (ensured_reg name (reg (registry w)) (heap w)))
                    (trace w ++ [EvLock; EvUnlock])).
Proof.
  intros Hwf Hu. destruct (ensured_slot name _ _ Hwf) as (_ & s & Hs & Hcase).
  exists s. split; [done|]. split; [done|]. by apply lotus_reg_body_eq.
Qed.

Lemma lotus_reg_scope_end name o w w1 :
  lotus_reg_body name o w = Some (tt, w1) →
  lotus_reg name o w = lock_guard_dtor w1.
Proof. intros Hb. unfold lotus_reg. by rewrite (bind_Some _ _ _ _ _ Hb). Qed.

Lemma lotus_get_scope_end name w h w1 :
  lotus_get_body name w = Some (h, w1) →
  lotus_get name w = (lock_guard_dtor ;; ret h) w1.
Proof. intros Hb. unfold lotus_get. by rewrite (bind_Some _ _ _ _ _ Hb). Qed.

Lemma reload_registry_scope_end w names w1 w2 :
  reload_unload_phase w = Some (names, w1) →
  for_each names call_rrc w1 = Some (tt, w2) →
  reload_registry w = lock_guard_dtor w2.
Proof.
  intros Hph Hfe. unfold reload_registry. rewrite (bind_Some _ _ _ _ _ Hph).
  unfold reload_request_phase. by rewrite (bind_Some _ _ _ _ _ Hfe).
Qed.

(** ** [reg] and [get] *)

(** C1: the round trip does not come about.  On a well-formed world with
    the mutex free, the statements of [reg(n, o, registry)] run through and
    leave the mutex free; the end of the scope of [reg] then destroys
    [lock] a second time, so the call is undefined.  Had [reg] returned
    there, the statements of [get(n, registry)] would run through without
    the request callback (one lock, one unlock, no other event) and give a
    handle with [good()] true whose [operator->] is [o]; the end of the
    scope of [get] is undefined in the same way. *)
Theorem round_trip_undefined (w : world) (n : string) (o : objptr) :
  wf w → unlocked w →
  ∃ w1 h w2,
    lotus_reg_body n o w = Some (tt, w1)
    ∧ mutex (registry w1) = false
    ∧ lotus_reg n o w = lock_guard_dtor w1
    ∧ lotus_reg n o w = None
    ∧ lotus_get_body n w1 = Some (h, w2)
    ∧ trace w2 = trace w1 ++ [EvLock; EvUnlock]
    ∧ good h w2 = Some (true, w2)
    ∧ arrow h w2 = Some (o, w2)
    ∧ mutex (registry w2) = false
    ∧ lotus_get n w1 = (lock_guard_dtor ;; ret h) w2
    ∧ lotus_get n w1 = None.
Proof.
  intros Hwf Hu.
  destruct (lotus_reg_body_defined n o w Hwf Hu) as (s & Hs & _ & Hreg).
  destruct (ensured_slot n _ _ Hwf) as (Hn & _).
  set (p := slot_of n (reg (registry w)) (heap w)) in *.
  set (eh := ensured_heap n (reg (registry w)) (heap w)) in *.
  set (er := ensured_reg n (reg (registry w)) (heap w)) in *.
  set (w1 := mk_world (<[p := mk_shared loaded (count s) o]> eh)
               (mk_registry (rrc (registry w)) false er)
               (trace w ++ [EvLock; EvUnlock])) in *.
  assert (Hp1 : heap w1 !! p = Some (mk_shared loaded (count s) o))
    by (by apply (lookup_insert_same _ _ s)).
  pose proof (lotus_get_body_present n w1 p _ eq_refl Hn Hp1 ltac:(done)) as Hget.
  eexists w1, _, _. split; [exact Hreg|]. split; [done|].
  split; [by apply lotus_reg_scope_end|]. split; [apply lotus_reg_undefined|].
  split; [exact Hget|]. split; [done|].
  split; [|split; [|split; [done|split]]].
  - erewrite good_some;
      [|simpl; by apply (lookup_insert_same _ _ (mk_shared loaded (count s) o))].
    done.
  - erewrite arrow_some;
      [|simpl; by apply (lookup_insert_same _ _ (mk_shared loaded (count s) o))].
    done.
  - by apply lotus_get_scope_end.
  - apply lotus_get_undefined.
Qed.

Lemma round_trip_undefined_witness :
  ∃ w1 h w2,
    lotus_reg_body "a" (Some 7) (new_world no_calls) = Some (tt, w1)
    ∧ mutex (registry w1) = false
    ∧ lotus_reg "a" (Some 7) (new_world no_calls) = lock_guard_dtor w1
    ∧ lotus_reg "a" (Some 7) (new_world no_calls) = None
    ∧ lotus_get_body "a" w1 = Some (h, w2)
    ∧ trace w2 = trace w1 ++ [EvLock; EvUnlock]
    ∧ good h w2 = Some (true, w2)
    ∧ arrow h w2 = Some (Some 7, w2)
    ∧ mutex (registry w2) = false
    ∧ lotus_get "a" w1 = (lock_guard_dtor ;; ret h) w2
    ∧ lotus_get "a" w1 = None.
Proof.
  apply (round_trip_undefined (new_world no_calls) "a" (Some 7)).
  - apply wf_new_world.
  - reflexivity.
Defined.

(** ** The lock *)

(** C8, what the code does.  [reg], [get] and [reload_registry] each lock
    the mutex once and unlock it once, by the explicit
    [lock.~lock_guard()]; when the scope of [lock] ends, the mutex is not
    locked and [lock] is destroyed a second time, which is undefined: none
    of the three calls has a defined result.  For [get] and
    [reload_registry] this is shown for request callbacks that return
    without calling [reg]; a callback that calls [reg] meets the same end
    of scope inside [reg].  [unload_registry], which has no explicit
    destructor call, locks once and unlocks once, and returns. *)
Theorem lock_guard_destroyed_twice (w : world) (n : string) (o : objptr) :
  wf w → unlocked w →
  (∃ w1,
     lotus_reg_body n o w = Some (tt, w1)
     ∧ trace w1 = trace w ++ [EvLock; EvUnlock]
     ∧ mutex (registry w1) = false
     ∧ lotus_reg n o w = lock_guard_dtor w1
     ∧ lock_guard_dtor w1 = None)
  ∧ ((get_requests w n = true → rrc (registry w) n = []) →
     ∃ h w1 cb,
       lotus_get_body n w = Some (h, w1)
       ∧ trace w1 = trace w ++ [EvLock; EvUnlock] ++ cb
       ∧ cb = (if get_requests w n then [EvRequest n] else [])
       ∧ mutex (registry w1) = false
       ∧ lotus_get n w = (lock_guard_dtor ;; ret h) w1
       ∧ lock_guard_dtor w1 = None)
  ∧ (∃ names w1,
       reload_unload_phase w = Some (names, w1)
       ∧ trace w1 = trace w ++ [EvLock] ++ registry_unload_events w
                      ++ [EvUnlock]
       ∧ unlocks_unheld false ([EvLock] ++ registry_unload_events w
                               ++ [EvUnlock]) = 0
       ∧ mutex (registry w1) = false
       ∧ ((∀ k, k ∈ names → rrc (registry w) k = []) →
          ∃ w2,
            for_each names call_rrc w1 = Some (tt, w2)
            ∧ trace w2 = trace w1 ++ map EvRequest names
            ∧ mutex (registry w2) = false
            ∧ reload_registry w = lock_guard_dtor w2
            ∧ lock_guard_dtor w2 = None))
  ∧ (lotus_reg n o w = None ∧ lotus_get n w = None ∧ reload_registry w = None)
  ∧ (∃ w',
       unload_registry w = Some (tt, w')
       ∧ trace w' = trace w ++ [EvLock] ++ registry_unload_events w
                      ++ [EvUnlock]
       ∧ unlocks_unheld false ([EvLock] ++ registry_unload_events w
                               ++ [EvUnlock]) = 0).
Proof.
  intros Hwf Hu.
  destruct (bulk_unload_eq w Hwf Hu) as (h' & Hph & Hul & _).
  destruct (bulk_events_mutex w) as (_ & _ & Hun).
  split; [|split; [|split; [|split]]].
  - destruct (lotus_reg_body_defined n o w Hwf Hu) as (s & _ & _ & Hreg).
    eexists. split; [exact Hreg|]. split; [done|]. split; [done|].
    split; [by apply lotus_reg_scope_end|]. by apply lock_guard_dtor_free.
  - intros Hdef.
    destruct (lotus_get_body_defined n w Hwf Hu Hdef) as (s & _ & _ & Hget).
    eexists _, _, _. split; [exact Hget|]. split; [done|]. split; [done|].
    split; [done|]. split; [by apply lotus_get_scope_end|].
    by apply lock_guard_dtor_free.
  - eexists _, _. split; [exact Hph|]. split; [done|]. split; [done|].
    split; [done|]. intros Hdef.
    eexists. split; [by apply for_each_rrc_deferred|]. split; [done|].
    split; [done|]. split.
    + eapply reload_registry_scope_end; [exact Hph|].
      by apply for_each_rrc_deferred.
    + by apply lock_guard_dtor_free.
  - split; [apply lotus_reg_undefined|].
    split; [apply lotus_get_undefined|apply reload_registry_undefined].
  - eexists. split; [exact Hul|]. done.
Qed.

Lemma lock_guard_destroyed_twice_witness :
  (∃ w1,
     lotus_reg_body "a" (Some 7) one_loaded = Some (tt, w1)
     ∧ trace w1 = trace one_loaded ++ [EvLock; EvUnlock]
     ∧ mutex (registry w1) = false
     ∧ lotus_reg "a" (Some 7) one_loaded = lock_guard_dtor w1
     ∧ lock_guard_dtor w1 = None)
  ∧ (∃ h w1 cb,
       lotus_get_body "b" one_loaded = Some (h, w1)
       ∧ trace w1 = trace one_loaded ++ [EvLock; EvUnlock] ++ cb
       ∧ cb = [EvRequest "b"]
       ∧ mutex (registry w1) = false
       ∧ lotus_get "b" one_loaded = (lock_guard_dtor ;; ret h) w1
       ∧ lock_guard_dtor w1 = None)
  ∧ (∃ w1 w2,
       reload_unload_phase one_loaded = Some (["a"], w1)
       ∧ trace w1 = [EvLock; EvUnload (Some 7); EvUnlock]
       ∧ for_each ["a"] call_rrc w1 = Some (tt, w2)
       ∧ trace w2 = [EvLock; EvUnload (Some 7); EvUnlock; EvRequest "a"]
       ∧ mutex (registry w2) = false
       ∧ reload_registry one_loaded = lock_guard_dtor w2
       ∧ lock_guard_dtor w2 = None)
  ∧ (lotus_reg "a" (Some 7) one_loaded = None
     ∧ lotus_get "b" one_loaded = None
     ∧ reload_registry one_loaded = None)
  ∧ (∃ w',
       unload_registry one_loaded = Some (tt, w')
       ∧ trace w' = [EvLock; EvUnload (Some 7); EvUnlock]).
Proof.
  assert (Hwf : wf one_loaded) by (apply wf_check_wf; vm_compute; reflexivity).
  destruct (lock_guard_destroyed_twice one_loaded "b" (Some 7) Hwf eq_refl)
    as (_ & Hget & Hrel & (_ & Hgn & Hrn) & Hul).
  destruct (lock_guard_destroyed_twice one_loaded "a" (Some 7) Hwf eq_refl)
    as (Hreg & _ & _ & (Hrg & _) & _).
  split; [exact Hreg|]. split; [|split; [|split]].
  - destruct (Hget ltac:(reflexivity)) as (h & w1 & cb & H1 & H2 & H3 & H4).
    exists h, w1, cb. split; [done|]. split; [done|]. split; [|done].
    rewrite H3. reflexivity.
  - destruct Hrel as (names & w1 & Hph & Htr & _ & _ & Hreq).
    assert (Hnames : names = ["a"]).
    { vm_compute in Hph. congruence. }
    subst names.
    destruct (Hreq ltac:(reflexivity)) as (w2 & Hfe & Htr2 & Hrest).
    exists w1, w2. split; [done|]. split; [rewrite Htr; reflexivity|].
    split; [done|]. split; [|done]. rewrite Htr2, Htr. reflexivity.
  - done.
  - destruct Hul as (w' & Hrun & Htr & _). exists w'. split; [done|].
    rewrite Htr. reflexivity.
Defined.

(** ** The bulk operations and the callbacks *)





Lemma count_events_nil f : count_events f [] = 0.
Proof. done. Qed.

Lemma unload_callbacks_held w :
  Forall (λ c : event * bool, is_unload c.1 = true ∧ c.2 = true)
    (map (λ e, (e, true)) (registry_unload_events w))
  ∧ length (map (λ e : event, (e, true)) (registry_unload_events w))
    = length (loaded_in_registry w).
Proof.
  unfold registry_unload_events, loaded_in_registry, unload_events.
  induction (loaded_entries _ _) as [|e l [IH1 IH2]]; [by split|].
  simpl. split; [by constructor|by rewrite IH2].
Qed.

(** The request callback of [get] is called in the world the locked lookup
    leaves. *)
Lemma lotus_get_body_call name w s :
  unlocked w →
  heap (looked_up name w) !! slot_of name (reg (registry w)) (heap w) = Some s →
  lotus_get_body name w
  = ((if bool_decide (state s = unloaded) then call_rrc name else ret tt) ;;
     handle_from_shared (Some (slot_of name (reg (registry w)) (heap w))))
      (looked_up name w).
Proof.
  intros Hu Hs. unfold lotus_get_body. rewrite lock_find_unlock by done.
  assert (Hld : state_load (slot_of name (reg (registry w)) (heap w))
                  (looked_up name w) = Some (state s, looked_up name w)).
  { unfold state_load, bind, deref. by rewrite Hs. }
  by rewrite (bind_Some _ _ _ _ _ Hld).
Qed.

(** C5, as the code has it.  The request callback is never called with the
    mutex locked: [get] calls it in the world its locked lookup leaves,
    where the mutex is free, [reload_registry] calls it in the loop that
    follows the explicit [lock.~lock_guard()], where the mutex is free,
    and [reg] calls no callback.  The unload callback is called by
    [reload_registry] and by [unload_registry] inside their locked loop,
    with the mutex locked.  The traces are those of the statements of each
    function, up to the end of its scope; for [get] and [reload_registry]
    they are given for request callbacks that return without calling
    [reg]. *)
Theorem callbacks_and_the_mutex (w : world) (n : string) (o : objptr) :
  wf w → unlocked w →
  (mutex (registry (looked_up n w)) = false
   ∧ (∃ s,
        heap (looked_up n w) !! slot_of n (reg (registry w)) (heap w) = Some s
        ∧ lotus_get_body n w
          = ((if bool_decide (state s = unloaded) then call_rrc n else ret tt) ;;
             handle_from_shared (Some (slot_of n (reg (registry w)) (heap w))))
              (looked_up n w))
   ∧ ((get_requests w n = true → rrc (registry w) n = []) →
      ∃ h w' evs,
        lotus_get_body n w = Some (h, w')
        ∧ trace w' = trace w ++ evs
        ∧ callbacks_with_mutex false evs
          = if get_requests w n then [(EvRequest n, false)] else []))
  ∧ (∃ w' evs,
       lotus_reg_body n o w = Some (tt, w')
       ∧ trace w' = trace w ++ evs
       ∧ callbacks_with_mutex false evs = [])
  ∧ (∃ names w1 evs,
       reload_unload_phase w = Some (names, w1)
       ∧ trace w1 = trace w ++ evs
       ∧ Forall (λ c : event * bool, is_unload c.1 = true ∧ c.2 = true)
           (callbacks_with_mutex false evs)
       ∧ length (callbacks_with_mutex false evs)
         = length (loaded_in_registry w)
       ∧ mutex (registry w1) = false
       ∧ reload_registry w = reload_request_phase names w1
       ∧ ((∀ k, k ∈ names → rrc (registry w) k = []) →
          ∃ w2 evs',
            for_each names call_rrc w1 = Some (tt, w2)
            ∧ trace w2 = trace w ++ evs ++ evs'
            ∧ callbacks_with_mutex false (evs ++ evs')
              = callbacks_with_mutex false evs
                ++ map (λ k, (EvRequest k, false)) names))
  ∧ (∃ w' evs,
       unload_registry w = Some (tt, w')
       ∧ trace w' = trace w ++ evs
       ∧ Forall (λ c : event * bool, is_unload c.1 = true ∧ c.2 = true)
           (callbacks_with_mutex false evs)
       ∧ length (callbacks_with_mutex false evs)
         = length (loaded_in_registry w)).
Proof.
  intros Hwf Hu.
  destruct (bulk_unload_eq w Hwf Hu) as (h' & Hph & Hul & _).
  destruct (bulk_events_mutex w) as (Hcb & Hma & _).
  destruct (unload_callbacks_held w) as [Hall Hlen].
  split; [|split; [|split]].
  - split; [done|]. split.
    + destruct (looked_up_slot n w Hwf) as (s & Hs & _).
      exists s. split; [done|]. by apply lotus_get_body_call.
    + intros Hdef.
      destruct (lotus_get_body_defined n w Hwf Hu Hdef) as (s & _ & _ & Hget).
      eexists _, _, _. split; [exact Hget|]. split; [done|].
      by destruct (get_requests w n).
  - destruct (lotus_reg_body_defined n o w Hwf Hu) as (s & _ & _ & Hreg).
    eexists _, _. split; [exact Hreg|]. done.
  - eexists _, _, _. split; [exact Hph|]. split; [done|].
    rewrite Hcb. split; [done|]. split; [done|]. split; [done|].
    split; [unfold reload_registry; by rewrite (bind_Some _ _ _ _ _ Hph)|].
    intros Hdef. eexists _, _.
    split; [by apply for_each_rrc_deferred|]. split.
    + cbn [trace]. by rewrite <- !app_assoc.
    + destruct (request_events_mutex false (loaded_in_registry w).*1) as [Hrq _].
      by rewrite callbacks_with_mutex_app, Hma, Hcb, Hrq.
  - eexists _, _. split; [exact Hul|]. split; [done|]. by rewrite Hcb.
Qed.

Lemma callbacks_and_the_mutex_witness :
  (∃ h w',
     lotus_get_body "c" loaded_and_waiting = Some (h, w')
     ∧ callbacks_with_mutex false (trace w') = [(EvRequest "c", false)])
  ∧ (∃ w',
       lotus_reg_body "c" (Some 9) loaded_and_waiting = Some (tt, w')
       ∧ callbacks_with_mutex false (trace w') = [])
  ∧ (∃ names w1 w2,
       reload_unload_phase loaded_and_waiting = Some (names, w1)
       ∧ for_each names call_rrc w1 = Some (tt, w2)
       ∧ callbacks_with_mutex false (trace w2)
         = [(EvUnload (Some 7), true); (EvRequest "a", false)])
  ∧ (∃ w',
       unload_registry loaded_and_waiting = Some (tt, w')
       ∧ callbacks_with_mutex false (trace w') = [(EvUnload (Some 7), true)]).
Proof.
  destruct (callbacks_and_the_mutex loaded_and_waiting "c" (Some 9))
    as ((_ & _ & Hget) & Hreg & Hrel & Hul).
  - apply wf_check_wf. vm_compute. reflexivity.
  - reflexivity.
  - assert (Hnil : trace loaded_and_waiting = []) by reflexivity.
    split; [|split; [|split]].
    + destruct (Hget ltac:(reflexivity)) as (h & w' & evs & Hrun & Htr & Hcb).
      exists h, w'. split; [done|]. by rewrite Htr, Hnil.
    + destruct Hreg as (w' & evs & Hrun & Htr & Hcb).
      exists w'. split; [done|]. by rewrite Htr, Hnil.
    + destruct Hrel as (names & w1 & evs & Hph & Htr & _ & _ & _ & _ & Hreq).
      destruct (Hreq ltac:(reflexivity)) as (w2 & evs' & Hfe & Htr2 & Hcb).
      exists names, w1, w2. split; [done|]. split; [done|].
      rewrite Htr2, Hnil. simpl. rewrite Hcb.
      vm_compute in Hph. injection Hph as <- <-.
      simpl in Htr. subst evs. reflexivity.
    + destruct Hul as (w' & evs & Hrun & Htr & _).
      exists w'. split; [done|].
      vm_compute in Hrun. injection Hrun as <-. reflexivity.
Defined.

(** C5 as it is stated fails: [unload_registry] on a registry with one
    loaded block calls the unload callback while it holds the mutex. *)
Lemma unload_callback_under_lock :
  ¬ (∀ w', unload_registry one_loaded = Some (tt, w') →
           Forall (λ c, c.2 = false) (callbacks_with_mutex false (trace w'))).
Proof.
  intros H.
  destruct (unload_registry one_loaded) as [[[] w']|] eqn:Hrun;
    [|by vm_compute in Hrun].
  specialize (H w' eq_refl).
  vm_compute in Hrun. injection Hrun as <-.
  vm_compute in H. apply Forall_cons in H as [H _]. discriminate.
Qed.

(** ** Loads and unloads *)

(** C3: an object that was registered and that no handle and no bulk
    operation reaches afterwards is never handed to the unload callback.
    The statements of [reg(n, o, registry)] leave the block of [n] loaded
    with [o]; the destruction of the registry that follows calls no
    callback and leaves the block as it is, the map being gone.  ([reg]
    itself has no defined result, by the second destruction of [lock].)
    What C3 says of [unload_registry] holds: it calls the unload
    callback for a loaded entry, each of its unload callbacks stands for one
    block that was loaded and is no longer, and the destructor of a handle
    of the block that is still held calls nothing. *)
Theorem registered_never_unloaded (w : world) (n : string) (o : objptr) :
  wf w → unlocked w →
  (∃ w1 w2 p c,
     lotus_reg_body n o w = Some (tt, w1)
     ∧ registry_dtor w1 = Some (tt, w2)
     ∧ trace w2 = trace w ++ [EvLock; EvUnlock]
     ∧ reg (registry w1) !! n = Some p
     ∧ heap w2 !! p = Some (mk_shared loaded c o)
     ∧ reg (registry w2) = ∅
     ∧ lotus_reg n o w = None)
  ∧ (∀ k q s,
       reg (registry w) !! k = Some q →
       heap w !! q = Some s →
       state s = loaded →
       ∃ w1 evs w2,
         unload_registry w = Some (tt, w1)
         ∧ trace w1 = trace w ++ evs
         ∧ EvUnload (object s) ∈ evs
         ∧ (∀ o', count_events (is_unload_of o') evs + held_objects o' (heap w1)
                  = held_objects o' (heap w))
         ∧ heap w1 !! q = Some (set_state unloaded s)
         ∧ handle_dtor (mk_handle (Some q)) w1 = Some (mk_handle None, w2)
         ∧ trace w2 = trace w1
         ∧ heap w2 !! q
           = Some (set_count ((count s - 1) mod uint_modulus)%Z
                     (set_state unloaded s))).
Proof.
  intros Hwf Hu. split.
  - destruct (lotus_reg_body_defined n o w Hwf Hu) as (s & Hs & _ & Hreg).
    destruct (ensured_slot n _ _ Hwf) as (Hn & _).
    eexists _, _, _, _. split; [exact Hreg|]. split; [done|].
    split; [done|]. split; [exact Hn|].
    split; [by apply (lookup_insert_same _ _ s)|]. split; [done|].
    apply lotus_reg_undefined.
  - intros k q s Hk Hq Hst.
    destruct (bulk_unload_eq w Hwf Hu) as (h' & _ & Hul & _ & Hpt & Hcnt).
    assert (Hq' : h' !! q = Some (set_state unloaded s)).
    { rewrite (Hpt q s Hq). f_equal. unfold bulk_unloaded.
      rewrite bool_decide_eq_true_2; [done|]. split; [done|].
      unfold registry_blocks. apply (list_elem_of_fmap_2 snd _ (k, q)).
      by apply elem_of_map_to_list. }
    eexists _, _, _. split; [exact Hul|]. split; [done|].
    split; [|split; [|split; [exact Hq'|split; [|split]]]].
    + apply elem_of_app. right. apply elem_of_app. left.
      apply registry_unload_events_spec. by exists k, q, s.
    + intros o'. cbn [heap]. rewrite <- (Hcnt o').
      rewrite !count_events_app, !count_events_cons, !count_events_nil.
      cbn [is_unload_of]. lia.
    + by apply handle_dtor_some.
    + unfold with_events, with_heap, drop_events, last_drop. simpl.
      rewrite andb_false_r. by rewrite app_nil_r.
    + unfold with_events, with_heap, dropped, last_drop. simpl.
      rewrite andb_false_r. by apply (lookup_insert_same _ _ (set_state unloaded s)).
Qed.

Lemma registered_never_unloaded_witness :
  (∃ w1 w2,
     lotus_reg_body "a" (Some 7) (new_world no_calls) = Some (tt, w1)
     ∧ registry_dtor w1 = Some (tt, w2)
     ∧ count_events is_unload (trace w2) = 0
     ∧ heap w2 = [mk_shared loaded 0 (Some 7)]
     ∧ lotus_reg "a" (Some 7) (new_world no_calls) = None)
  ∧ (∃ w1 w2,
       unload_registry one_loaded = Some (tt, w1)
       ∧ handle_dtor (mk_handle (Some 0)) w1 = Some (mk_handle None, w2)
       ∧ count_events (is_unload_of (Some 7)) (trace w2) = 1
       ∧ heap w2 = [mk_shared unloaded 0 (Some 7)]).
Proof.
  destruct (registered_never_unloaded (new_world no_calls) "a" (Some 7))
    as [(w1 & w2 & p & c & Hreg & Hd & Htr & _ & _ & _ & Hnone) _].
  - apply wf_new_world.
  - reflexivity.
  - destruct (registered_never_unloaded one_loaded "a" (Some 7))
      as [_ Hbulk].
    + apply wf_check_wf. vm_compute. reflexivity.
    + reflexivity.
    + split.
      * exists w1, w2. split; [done|]. split; [done|].
        rewrite Htr. split; [reflexivity|]. split; [|done].
        vm_compute in Hreg. injection Hreg as <-.
        vm_compute in Hd. injection Hd as <-. reflexivity.
      * destruct (Hbulk "a" 0 (mk_shared loaded 1 (Some 7)))
          as (v1 & evs & v2 & Hul & _ & _ & _ & _ & Hdrop & _);
          [reflexivity|reflexivity|reflexivity|].
        exists v1, v2. split; [done|]. split; [done|].
        vm_compute in Hul. injection Hul as <-.
        vm_compute in Hdrop. injection Hdrop as <-.
        split; reflexivity.
Defined.

(** * More of the library *)

(** ** [find_or_create_shared] *)

(** X1: [find_or_create_shared] returns, whatever the world; the name then
    maps to the block it returned, and a second call with the same name
    returns the same block and changes nothing: the pointer of a name is
    stable. *)
Theorem find_or_create_twice (w : world) (name : string) :
  ∃ p w1,
    find_or_create_shared name w = Some (p, w1)
    ∧ reg (registry w1) !! name = Some p
    ∧ find_or_create_shared name w1 = Some (p, w1).
Proof.
  rewrite find_or_create_shared_eq. eexists _, _. split; [done|].
  destruct w as [h [r m rg] tr]. simpl.
  assert (Hn : ensured_reg name rg h !! name = Some (slot_of name rg h)).
  { unfold ensured_reg, slot_of. destruct (rg !! name) eqn:Hn; [done|].
    by rewrite lookup_insert_eq. }
  split; [done|].
  rewrite find_or_create_shared_eq. simpl.
  by rewrite (ensured_present _ _ _ _ Hn), (ensured_heap_present _ _ _ _ Hn),
    (slot_of_present _ _ _ _ Hn).
Qed.

(** X2: for a name that is not in the map, [find_or_create_shared] makes a
    block at a fresh address, with state [unloaded], count 0 and a null
    object, and maps the name to it; the blocks and the names that were
    there are as they were, nothing is written to the trace, and a
    well-formed world stays well-formed. *)
Theorem find_or_create_fresh (w : world) (name : string) :
  reg (registry w) !! name = None →
  ∃ w1,
    find_or_create_shared name w = Some (length (heap w), w1)
    ∧ heap w1 !! length (heap w) = Some (mk_shared unloaded 0 None)
    ∧ length (heap w1) = S (length (heap w))
    ∧ (∀ q s, heap w !! q = Some s → heap w1 !! q = Some s)
    ∧ reg (registry w1) !! name = Some (length (heap w))
    ∧ (∀ m, m ≠ name → reg (registry w1) !! m = reg (registry w) !! m)
    ∧ trace w1 = trace w
    ∧ mutex (registry w1) = mutex (registry w)
    ∧ (wf w → wf w1).
Proof.
  intros Hn. rewrite find_or_create_shared_eq. eexists.
  unfold slot_of, ensured_heap, ensured_reg. rewrite Hn. split; [done|].
  simpl. split_and!; try done.
  - by rewrite lookup_app_r, Nat.sub_diag.
  - rewrite length_app. simpl. lia.
  - intros q s Hq. by apply lookup_app_l_Some.
  - by rewrite lookup_insert_eq.
  - intros m Hm. by rewrite lookup_insert_ne.
  - intros Hwf. pose proof (ensured_wf name _ _ Hwf) as H.
    unfold ensured_reg, ensured_heap in H. by rewrite Hn in H.
Qed.

Lemma find_or_create_fresh_witness :
  ∃ w1,
    find_or_create_shared "b" one_loaded = Some (length (heap one_loaded), w1)
    ∧ heap w1 !! length (heap one_loaded) = Some (mk_shared unloaded 0 None)
    ∧ length (heap w1) = S (length (heap one_loaded))
    ∧ (∀ q s, heap one_loaded !! q = Some s → heap w1 !! q = Some s)
    ∧ reg (registry w1) !! "b" = Some (length (heap one_loaded))
    ∧ (∀ m, m ≠ "b" → reg (registry w1) !! m = reg (registry one_loaded) !! m)
    ∧ trace w1 = trace one_loaded
    ∧ mutex (registry w1) = mutex (registry one_loaded)
    ∧ (wf one_loaded → wf w1).
Proof.
  apply (find_or_create_fresh one_loaded "b"). vm_compute. reflexivity.
Defined.

(** ** [operator=] *)

(** X3: assigning a handle.  When both handles refer to the same block (or
    both are empty), which covers self-assignment, nothing happens.
    Otherwise the target first lets go of its block [p] as its destructor
    does (so the unload callback runs if it was the last handle of a loaded
    block), then takes the block [q] of the source and counts itself in it;
    an empty source leaves the target empty, and an empty target is a plain
    copy. *)
Theorem assign_effect (w : world) (p q : ptr) (sp sq : shared) :
  heap w !! p = Some sp →
  heap w !! q = Some sq →
  p ≠ q →
  (∀ a b, shr a = shr b → handle_assign a b w = Some (a, w))
  ∧ handle_assign (mk_handle (Some p)) (mk_handle (Some q)) w
    = Some (mk_handle (Some q),
            mk_world
              (<[q := set_count ((count sq + 1) mod uint_modulus)%Z sq]>
                 (<[p := dropped sp]> (heap w)))
              (registry w) (trace w ++ drop_events sp))
  ∧ handle_assign (mk_handle (Some p)) handle_empty w
    = Some (handle_empty,
            mk_world (<[p := dropped sp]> (heap w)) (registry w)
              (trace w ++ drop_events sp))
  ∧ handle_assign handle_empty (mk_handle (Some q)) w
    = Some (mk_handle (Some q),
            mk_world
              (<[q := set_count ((count sq + 1) mod uint_modulus)%Z sq]> (heap w))
              (registry w) (trace w)).
Proof.
  intros Hp Hq Hne. split_and!.
  - intros a b Hab. unfold handle_assign. by rewrite bool_decide_eq_true_2.
  - unfold handle_assign.
    rewrite bool_decide_eq_false_2 by (simpl; congruence).
    rewrite (bind_Some _ _ _ _ _ (handle_dtor_some w p sp Hp)).
    cbn [shr]. erewrite handle_from_shared_some; [done|].
    simpl. by rewrite list_lookup_insert_ne.
  - unfold handle_assign. rewrite bool_decide_eq_false_2 by done.
    by rewrite (bind_Some _ _ _ _ _ (handle_dtor_some w p sp Hp)).
  - unfold handle_assign. rewrite bool_decide_eq_false_2 by done.
    unfold handle_empty, handle_dtor. cbn [shr]. unfold bind at 1, ret at 1.
    by rewrite (handle_from_shared_some _ q sq).
Qed.

Lemma assign_effect_witness :
  (∀ a b, shr a = shr b → handle_assign a b two_loaded = Some (a, two_loaded))
  ∧ handle_assign (mk_handle (Some 0)) (mk_handle (Some 1)) two_loaded
    = Some (mk_handle (Some 1),
            mk_world
              (<[1 := set_count ((1 + 1) mod uint_modulus)%Z
                        (mk_shared loaded 1 (Some 8))]>
                 (<[0 := dropped (mk_shared loaded 1 (Some 7))]> (heap two_loaded)))
              (registry two_loaded)
              (trace two_loaded ++ drop_events (mk_shared loaded 1 (Some 7))))
  ∧ handle_assign (mk_handle (Some 0)) handle_empty two_loaded
    = Some (handle_empty,
            mk_world (<[0 := dropped (mk_shared loaded 1 (Some 7))]> (heap two_loaded))
              (registry two_loaded)
              (trace two_loaded ++ drop_events (mk_shared loaded 1 (Some 7))))
  ∧ handle_assign handle_empty (mk_handle (Some 1)) two_loaded
    = Some (mk_handle (Some 1),
            mk_world
              (<[1 := set_count ((1 + 1) mod uint_modulus)%Z
                        (mk_shared loaded 1 (Some 8))]> (heap two_loaded))
              (registry two_loaded) (trace two_loaded)).
Proof.
  apply (assign_effect two_loaded 0 1 (mk_shared loaded 1 (Some 7))
           (mk_shared loaded 1 (Some 8)));
    [reflexivity | reflexivity | discriminate].
Defined.

(** ** The bulk operations, in more detail *)

(** The world [unload_registry] leaves, in full. *)
Lemma unload_registry_eq w :
  wf w → unlocked w →
  ∃ h',
    unload_registry w =
      Some (tt, mk_world h'
                  (mk_registry (rrc (registry w)) false (reg (registry w)))
                  (trace w ++ [EvLock] ++ registry_unload_events w ++ [EvUnlock]))
    ∧ length h' = length (heap w)
    ∧ (∀ q s, heap w !! q = Some s → h' !! q = Some (bulk_unloaded w q s)).
Proof.
  intros Hwf Hu. destruct (registry_entries_valid w Hwf) as [Hvalid Hnodup].
  set (wl := mk_world (heap w)
               (mk_registry (rrc (registry w)) true (reg (registry w)))
               (trace w ++ [EvLock])).
  destruct (reload_scan_spec _ wl [] Hvalid Hnodup)
    as (h' & Hrun & Hlen & Hpt & _).
  simpl in Hrun, Hlen, Hpt.
  assert (Hlock : lock_guard_ctor w = Some (tt, wl)).
  { unfold lock_guard_ctor. unfold unlocked in Hu. by rewrite Hu. }
  exists h'. split; [|split; [done|]].
  - unfold unload_registry. rewrite (bind_Some _ _ _ _ _ Hlock).
    unfold bind at 1. unfold reg_entries. simpl.
    unfold bind at 1. rewrite (unload_scan_reload_scan _ _ []).
    rewrite (bind_Some _ _ _ _ _ Hrun).
    unfold lock_guard_dtor, bind, ret, registry_unload_events. simpl.
    by rewrite <- !app_assoc.
  - intros q s Hq. by apply Hpt.
Qed.

(** X12: after [unload_registry] no entry of the registry is loaded, and a
    second [unload_registry] changes no block and calls no callback: all it
    does is lock and unlock. *)
Theorem unload_all_twice (w : world) :
  wf w → unlocked w →
  ∃ w1 w2,
    unload_registry w = Some (tt, w1)
    ∧ loaded_in_registry w1 = []
    ∧ unload_registry w1 = Some (tt, w2)
    ∧ heap w2 = heap w1
    ∧ registry w2 = registry w1
    ∧ trace w2 = trace w1 ++ [EvLock; EvUnlock].
Proof.
  intros Hwf Hu.
  destruct (unload_registry_eq w Hwf Hu) as (h1 & Hrun1 & Hlen1 & Hpt1).
  set (w1 := mk_world h1 (mk_registry (rrc (registry w)) false (reg (registry w)))
               (trace w ++ [EvLock] ++ registry_unload_events w ++ [EvUnlock]))
    in *.
  assert (Hwf1 : wf w1).
  { destruct Hwf as [Hptr Hinj]. split; [|done]. simpl. intros n p Hp.
    apply lookup_lt_is_Some. rewrite Hlen1. apply lookup_lt_is_Some. eauto. }
  assert (Hnone : loaded_in_registry w1 = []).
  { apply loaded_entries_nil. intros [n p] He. simpl in *.
    apply elem_of_map_to_list in He.
    destruct Hwf as [Hptr _]. destruct (Hptr _ _ He) as [s Hs].
    unfold slot_loaded. rewrite (Hpt1 p s Hs).
    apply bool_decide_eq_false. by eapply bulk_unloaded_not_loaded. }
  destruct (unload_registry_eq w1 Hwf1 eq_refl) as (h2 & Hrun2 & Hlen2 & Hpt2).
  eexists w1, _. split; [done|]. split; [done|]. split; [exact Hrun2|].
  simpl. split_and!.
  - apply list_eq. intros i. destruct (h1 !! i) as [s|] eqn:Hi.
    + rewrite (Hpt2 i s Hi). f_equal. unfold bulk_unloaded.
      case_bool_decide as Hd; [|done]. destruct Hd as [Hst Hin]. exfalso.
      unfold registry_blocks in Hin.
      apply list_elem_of_fmap in Hin as ([n p] & -> & Hin). simpl in *.
      assert ((n, p) ∈ loaded_in_registry w1) as Hbad;
        [|rewrite Hnone in Hbad; by apply elem_of_nil in Hbad].
      unfold loaded_in_registry, loaded_entries. apply list_elem_of_filter.
      split; [|done]. simpl. unfold slot_loaded. rewrite Hi.
      by apply bool_decide_eq_true.
    + apply lookup_ge_None. rewrite Hlen2. by apply lookup_ge_None.
  - done.
  - unfold registry_unload_events, unload_events.
    fold (loaded_in_registry w1). by rewrite Hnone.
Qed.

Lemma unload_all_twice_witness :
  ∃ w1 w2,
    unload_registry two_loaded = Some (tt, w1)
    ∧ loaded_in_registry w1 = []
    ∧ unload_registry w1 = Some (tt, w2)
    ∧ heap w2 = heap w1
    ∧ registry w2 = registry w1
    ∧ trace w2 = trace w1 ++ [EvLock; EvUnlock].
Proof.
  apply (unload_all_twice two_loaded).
  - apply wf_check_wf. vm_compute. reflexivity.
  - reflexivity.
Defined.

(** X13: neither unloading nor [operator->] checks or clears the object
    pointer.  After [unload_registry], a handle of a block that was loaded
    is no longer [good()], the count of its block is what it was, and
    reading through the handle still returns the pointer that was handed to
    the unload callback. *)
Theorem stale_object_after_unload (w : world) (n : string) (q : ptr) (s : shared) :
  wf w → unlocked w →
  reg (registry w) !! n = Some q →
  heap w !! q = Some s →
  state s = loaded →
  ∃ w1 evs,
    unload_registry w = Some (tt, w1)
    ∧ trace w1 = trace w ++ evs
    ∧ EvUnload (object s) ∈ evs
    ∧ heap w1 !! q = Some (mk_shared unloaded (count s) (object s))
    ∧ good (mk_handle (Some q)) w1 = Some (false, w1)
    ∧ arrow (mk_handle (Some q)) w1 = Some (object s, w1).
Proof.
  intros Hwf Hu Hn Hq Hst.
  destruct (unload_registry_eq w Hwf Hu) as (h1 & Hrun1 & Hlen1 & Hpt1).
  assert (Hq1 : h1 !! q = Some (mk_shared unloaded (count s) (object s))).
  { rewrite (Hpt1 q s Hq). unfold bulk_unloaded.
    rewrite bool_decide_eq_true_2; [done|]. split; [done|].
    unfold registry_blocks. apply elem_of_map_to_list in Hn.
    by apply (list_elem_of_fmap_2 snd) in Hn. }
  eexists _, _. split; [exact Hrun1|]. simpl. split; [done|].
  split; [|split; [done|split]].
  - apply elem_of_cons. right. apply elem_of_app. left.
    unfold registry_unload_events, unload_events.
    apply list_elem_of_fmap. exists (n, q). split.
    + simpl. unfold slot_object. by rewrite Hq.
    + unfold loaded_entries. apply list_elem_of_filter.
      split; [|by apply elem_of_map_to_list].
      simpl. unfold slot_loaded. rewrite Hq. by apply bool_decide_eq_true.
  - by rewrite (good_some _ q (mk_shared unloaded (count s) (object s))).
  - by rewrite (arrow_some _ q (mk_shared unloaded (count s) (object s))).
Qed.

Lemma stale_object_after_unload_witness :
  ∃ w1 evs,
    unload_registry one_loaded = Some (tt, w1)
    ∧ trace w1 = trace one_loaded ++ evs
    ∧ EvUnload (Some 7) ∈ evs
    ∧ heap w1 !! 0 = Some (mk_shared unloaded 1 (Some 7))
    ∧ good (mk_handle (Some 0)) w1 = Some (false, w1)
    ∧ arrow (mk_handle (Some 0)) w1 = Some (Some 7, w1).
Proof.
  apply (stale_object_after_unload one_loaded "a" 0 (mk_shared loaded 1 (Some 7))).
  - apply wf_check_wf. vm_compute. reflexivity.
  - reflexivity.
  - vm_compute. reflexivity.
  - reflexivity.
  - reflexivity.
Defined.

(** ** What a program keeps true *)

Lemma live_handles_app q vars h :
  live_handles q (vars ++ [h])
  = live_handles q vars + (if bool_decide (shr h = Some q) then 1 else 0).
Proof.
  unfold live_handles. rewrite filter_app, length_app. f_equal.
  rewrite filter_cons, filter_nil. case_decide; by case_bool_decide.
Qed.

Lemma live_handles_insert q vars i h h' :
  vars !! i = Some h →
  live_handles q (<[i := h']> vars)
  + (if bool_decide (shr h = Some q) then 1 else 0)
  = live_handles q vars + (if bool_decide (shr h' = Some q) then 1 else 0).
Proof.
  unfold live_handles. revert i.
  induction vars as [|x vars IH]; intros [|i] Hi; simplify_eq/=.
  - rewrite !filter_cons.
    repeat case_decide; repeat case_bool_decide; simpl; try done; lia.
  - rewrite !filter_cons. specialize (IH i Hi).
    repeat case_decide; repeat case_bool_decide; simpl in *; try done; lia.
Qed.

(** The handle in the variable [i] destroyed. *)
Lemma prog_inv_drop vars w w' i p s :
  vars !! i = Some (mk_handle (Some p)) →
  heap w !! p = Some s →
  heap w' = <[p := dropped s]> (heap w) →
  reg (registry w') = reg (registry w) →
  prog_inv vars w →
  prog_inv (<[i := mk_handle None]> vars) w'.
Proof.
  intros Hi Hp Hh Hr [Hc Hn Hnm].
  assert (Hcd : count (dropped s) = ((count s - 1) mod uint_modulus)%Z).
  { unfold dropped. by destruct (last_drop s). }
  assert (Hsd : state (dropped s) = waiting_load → state s = waiting_load).
  { unfold dropped. by destruct (last_drop s). }
  split.
  - intros q s' Hs'. rewrite Hh in Hs'.
    pose proof (live_handles_insert q vars i _ (mk_handle None) Hi) as Hl.
    simpl in Hl.
    destruct (decide (q = p)) as [->|Hne].
    + rewrite (lookup_insert_same _ _ s _ Hp) in Hs'. simplify_eq.
      rewrite bool_decide_eq_true_2 in Hl by done.
      rewrite Hcd, (Hc p s Hp), Zminus_mod_idemp_l. f_equal. lia.
    + rewrite list_lookup_insert_ne in Hs' by done.
      rewrite bool_decide_eq_false_2 in Hl by congruence.
      rewrite (Hc q s' Hs'). f_equal. lia.
  - intros q s' Hs'. rewrite Hh in Hs'.
    destruct (decide (q = p)) as [->|Hne].
    + rewrite (lookup_insert_same _ _ s _ Hp) in Hs'. simplify_eq.
      intros Hst. by apply (Hn p s Hp), Hsd.
    + rewrite list_lookup_insert_ne in Hs' by done. by apply (Hn q).
  - unfold all_named in *. by rewrite Hh, Hr, length_insert.
Qed.

(** ** Handles, in more detail *)

Lemma for_each_app {A} (l1 l2 : list A) (body : A → M unit) w :
  for_each (l1 ++ l2) body w = (for_each l1 body ;; for_each l2 body) w.
Proof.
  revert w. induction l1 as [|x l1 IH]; intros w; [done|].
  simpl. unfold bind in *. destruct (body x w) as [[[] w1]|]; [|done].
  apply IH.
Qed.

Lemma drop_times_S k q w :
  drop_times (S k) q w
  = (handle_dtor (mk_handle (Some q)) ;; drop_times k q) w.
Proof.
  unfold drop_times. cbn [replicate for_each]. unfold bind.
  by destruct (handle_dtor (mk_handle (Some q)) w) as [[h w1]|].
Qed.

Lemma drop_times_early j :
  ∀ w q s,
    heap w !! q = Some s →
    (Z.of_nat j < count s < uint_modulus)%Z →
    drop_times j q w
    = Some (tt, mk_world (<[q := set_count (count s - Z.of_nat j)%Z s]> (heap w))
                  (registry w) (trace w)).
Proof.
  induction j as [|j IH]; intros w q s Hq Hc.
  - unfold drop_times. simpl. unfold ret. f_equal. f_equal.
    destruct w as [h r tr]; simpl in *. f_equal.
    rewrite Z.sub_0_r. destruct s; simpl. by rewrite list_insert_id.
  - rewrite drop_times_S.
    rewrite (bind_Some _ _ _ _ _ (handle_dtor_some w q s Hq)).
    assert (Hnl : last_drop s = false).
    { unfold last_drop. rewrite bool_decide_eq_false_2 by lia. done. }
    unfold dropped, drop_events, with_events, with_heap. rewrite Hnl. simpl.
    rewrite app_nil_r.
    assert (Hm : ((count s - 1) mod uint_modulus = count s - 1)%Z)
      by (apply Z.mod_small; lia).
    rewrite Hm.
    rewrite (IH _ q (set_count (count s - 1)%Z s)); simpl.
    + rewrite list_insert_insert_eq. unfold set_count. simpl.
      do 5 f_equal. lia.
    + by apply (lookup_insert_same _ _ s).
    + lia.
Qed.

(** X20: reference counting.  A loaded block that is held by [k] handles
    (its count is [k], below [2^32]) survives the destruction of any [j < k]
    of them, which only lowers the count and calls nothing; the destruction
    of the [k]-th hands the object to the unload callback, once, and leaves
    the block [unloaded] with count 0. *)
Theorem unload_on_last_of_k (w : world) (q : ptr) (s : shared) (k j : nat) :
  heap w !! q = Some s →
  state s = loaded →
  count s = Z.of_nat k →
  (Z.of_nat k < uint_modulus)%Z →
  j < k →
  drop_times j q w
  = Some (tt, mk_world
                (<[q := mk_shared loaded (Z.of_nat (k - j)) (object s)]> (heap w))
                (registry w) (trace w))
  ∧ drop_times k q w
    = Some (tt, mk_world
                  (<[q := mk_shared unloaded 0 (object s)]> (heap w))
                  (registry w) (trace w ++ [EvUnload (object s)])).
Proof.
  intros Hq Hst Hc Hk Hj. split.
  - rewrite (drop_times_early j w q s Hq) by lia.
    do 4 f_equal. destruct s; simpl in *; subst. unfold set_count; simpl.
    f_equal. lia.
  - destruct k as [|k]; [lia|].
    assert (Hstep : drop_times (S k) q w
                    = (drop_times k q ;; drop_times 1 q) w).
    { unfold drop_times. replace (S k) with (k + 1) by lia.
      by rewrite replicate_add, for_each_app. }
    rewrite Hstep.
    rewrite (bind_Some _ _ _ _ _ (drop_times_early k w q s Hq ltac:(lia))).
    rewrite drop_times_S.
    set (s1 := set_count (count s - Z.of_nat k)%Z s).
    erewrite (bind_Some _ _ _ _ _ (handle_dtor_some _ q s1 _)).
    unfold drop_times. simpl. unfold ret.
    assert (Hc1 : count s1 = 1%Z) by (unfold s1; simpl; lia).
    assert (Hl : last_drop s1 = true).
    { unfold last_drop. rewrite Hc1. unfold s1. simpl. rewrite Hst. done. }
    unfold dropped, drop_events, with_events, with_heap. rewrite Hl. simpl.
    rewrite list_insert_insert_eq. do 4 f_equal.
    unfold set_state, set_count. simpl. f_equal.
    replace (count s - Z.of_nat k - 1)%Z with 0%Z by lia. done.
    Unshelve. simpl. by apply (lookup_insert_same _ _ s).
Qed.

Lemma unload_on_last_of_k_witness :
  drop_times 2 0 three_handles
  = Some (tt, mk_world
                (<[0 := mk_shared loaded (Z.of_nat (3 - 2)) (Some 7)]>
                   (heap three_handles))
                (registry three_handles) (trace three_handles))
  ∧ drop_times 3 0 three_handles
    = Some (tt, mk_world
                  (<[0 := mk_shared unloaded 0 (Some 7)]> (heap three_handles))
                  (registry three_handles)
                  (trace three_handles ++ [EvUnload (Some 7)])).
Proof.
  apply (unload_on_last_of_k three_handles 0 (mk_shared loaded 3 (Some 7)) 3 2).
  - reflexivity.
  - reflexivity.
  - reflexivity.
  - unfold uint_modulus. simpl. lia.
  - lia.
Defined.

(** X21: no operation of a handle touches the registry or its mutex.
    Copying a handle, destroying it, [good()] and [operator->] leave the
    map, the callbacks and the mutex as they are, lock and unlock nothing,
    and return also while the mutex is locked. *)
Theorem handle_operations_take_no_lock (w : world) (q : ptr) (s : shared) :
  heap w !! q = Some s →
  ∃ hc wc wd evs b o,
    handle_copy (mk_handle (Some q)) w = Some (hc, wc)
    ∧ registry wc = registry w ∧ trace wc = trace w
    ∧ handle_dtor (mk_handle (Some q)) w = Some (handle_empty, wd)
    ∧ registry wd = registry w ∧ trace wd = trace w ++ evs
    ∧ count_events is_lock evs = 0 ∧ count_events is_unlock evs = 0
    ∧ good (mk_handle (Some q)) w = Some (b, w)
    ∧ arrow (mk_handle (Some q)) w = Some (o, w).
Proof.
  intros Hq. eexists _, _, _, _, _, _.
  split; [by apply handle_copy_some|]. split; [done|]. split; [done|].
  split; [by apply handle_dtor_some|]. split; [done|]. split; [done|].
  split; [|split; [|split; [by apply good_some|by apply arrow_some]]].
  - unfold drop_events. by destruct (last_drop s).
  - unfold drop_events. by destruct (last_drop s).
Qed.

Lemma handle_operations_take_no_lock_witness :
  ∃ hc wc wd evs b o,
    handle_copy (mk_handle (Some 0)) one_loaded_locked = Some (hc, wc)
    ∧ registry wc = registry one_loaded_locked
    ∧ trace wc = trace one_loaded_locked
    ∧ handle_dtor (mk_handle (Some 0)) one_loaded_locked = Some (handle_empty, wd)
    ∧ registry wd = registry one_loaded_locked
    ∧ trace wd = trace one_loaded_locked ++ evs
    ∧ count_events is_lock evs = 0 ∧ count_events is_unlock evs = 0
    ∧ good (mk_handle (Some 0)) one_loaded_locked = Some (b, one_loaded_locked)
    ∧ arrow (mk_handle (Some 0)) one_loaded_locked = Some (o, one_loaded_locked).
Proof.
  apply (handle_operations_take_no_lock one_loaded_locked 0
           (mk_shared loaded 1 (Some 7))).
  reflexivity.
Defined.

(** An empty variable takes a handle of the block at [p]. *)
Lemma prog_inv_take vars w w' i p s :
  vars !! i = Some (mk_handle None) →
  heap w !! p = Some s →
  heap w' = <[p := set_count ((count s + 1) mod uint_modulus)%Z s]> (heap w) →
  reg (registry w') = reg (registry w) →
  prog_inv vars w →
  prog_inv (<[i := mk_handle (Some p)]> vars) w'.
Proof.
  intros Hi Hp Hh Hr [Hc Hn Hnm]. split.
  - intros q s' Hs'. rewrite Hh in Hs'.
    pose proof (live_handles_insert q vars i _ (mk_handle (Some p)) Hi) as Hl.
    simpl in Hl.
    destruct (decide (q = p)) as [->|Hne].
    + rewrite (lookup_insert_same _ _ s _ Hp) in Hs'. simplify_eq. simpl.
      rewrite bool_decide_eq_true_2 in Hl by done.
      rewrite (Hc p s Hp), Z.add_mod_idemp_l by done. f_equal. lia.
    + rewrite list_lookup_insert_ne in Hs' by done.
      rewrite bool_decide_eq_false_2 in Hl by congruence.
      rewrite (Hc q s' Hs'). f_equal. lia.
  - intros q s' Hs'. rewrite Hh in Hs'.
    destruct (decide (q = p)) as [->|Hne].
    + rewrite (lookup_insert_same _ _ s _ Hp) in Hs'. simplify_eq. simpl.
      by apply (Hn p).
    + rewrite list_lookup_insert_ne in Hs' by done. by apply (Hn q).
  - unfold all_named in *. by rewrite Hh, Hr, length_insert.
Qed.

(** X22: assignment keeps the counts right.  In a world where the count of
    every block is the number of variables holding a handle of it,
    assigning the handle of one variable to another returns, leaves the
    target referring to the block of the source, and the counts are again
    the numbers of handles; no block starts to wait or loses its name. *)
Theorem assign_keeps_counts
    (vars : list resource_handle) (w : world) (i j : nat)
    (a b : resource_handle) :
  vars !! i = Some a →
  vars !! j = Some b →
  handles_ok vars w →
  prog_inv vars w →
  ∃ h w',
    handle_assign a b w = Some (h, w')
    ∧ shr h = shr b
    ∧ handles_ok (<[i := h]> vars) w'
    ∧ prog_inv (<[i := h]> vars) w'
    ∧ counts_match (<[i := h]> vars) w'.
Proof.
  intros Hi Hj Hok Hinv.
  assert (Hval : ∀ k h q, vars !! k = Some h → shr h = Some q →
                          is_Some (heap w !! q)).
  { intros k h q Hk Hq. unfold handles_ok in Hok.
    rewrite Forall_lookup in Hok. by apply (Hok k h Hk). }
  assert (Hmain : ∃ h w',
            handle_assign a b w = Some (h, w')
            ∧ shr h = shr b
            ∧ length (heap w') = length (heap w)
            ∧ prog_inv (<[i := h]> vars) w').
  { destruct (decide (shr a = shr b)) as [Heq|Hne].
    { exists a, w. unfold handle_assign. rewrite bool_decide_eq_true_2 by done.
      split; [done|]. split; [done|]. split; [done|].
      by rewrite list_insert_id. }
    unfold handle_assign. rewrite bool_decide_eq_false_2 by done.
    destruct a as [[p|]], b as [[q|]]; cbn [shr] in *; try done.
    - destruct (Hval i _ p Hi eq_refl) as [sp Hp].
      destruct (Hval j _ q Hj eq_refl) as [sq Hq].
      assert (p ≠ q) by congruence.
      rewrite (bind_Some _ _ _ _ _ (handle_dtor_some w p sp Hp)).
      erewrite handle_from_shared_some;
        [|simpl; by rewrite list_lookup_insert_ne].
      eexists _, _. split; [done|]. split; [done|].
      split; [simpl; by rewrite !length_insert|].
      rewrite <- (list_insert_insert_eq vars i (mk_handle (Some q))
                    (mk_handle None)).
      eapply (prog_inv_take _ (with_events (drop_events sp)
                                 (with_heap (<[p := dropped sp]> (heap w)) w))
                _ i q sq).
      + apply list_lookup_insert_eq. by eapply lookup_lt_Some.
      + simpl. by rewrite list_lookup_insert_ne.
      + done.
      + done.
      + by apply (prog_inv_drop vars w _ i p sp).
    - destruct (Hval i _ p Hi eq_refl) as [sp Hp].
      rewrite (bind_Some _ _ _ _ _ (handle_dtor_some w p sp Hp)).
      eexists _, _. split; [done|]. split; [done|].
      split; [simpl; by rewrite length_insert|].
      by apply (prog_inv_drop vars w _ i p sp).
    - destruct (Hval j _ q Hj eq_refl) as [sq Hq].
      unfold handle_dtor. cbn [shr]. unfold bind at 1, ret at 1.
      rewrite (handle_from_shared_some w q sq Hq).
      eexists _, _. split; [done|]. split; [done|].
      split; [simpl; by rewrite length_insert|].
      by apply (prog_inv_take vars w _ i q sq). }
  destruct Hmain as (h & w' & Hrun & Hsh & Hlen & Hinv').
  exists h, w'. split; [done|]. split; [done|].
  split; [|split; [done|apply Hinv']].
  unfold handles_ok. apply Forall_insert.
  - unfold handles_ok in Hok. eapply Forall_impl; [exact Hok|].
    simpl. intros h0 Hh0 q0 Hq0. apply lookup_lt_is_Some. rewrite Hlen.
    apply lookup_lt_is_Some. by apply Hh0.
  - intros q0 Hq0. apply lookup_lt_is_Some. rewrite Hlen.
    apply lookup_lt_is_Some. rewrite Hsh in Hq0. by apply (Hval j b).
Qed.

Lemma prog_inv_two_loaded :
  prog_inv [mk_handle (Some 0); mk_handle (Some 1)] two_loaded.
Proof.
  split.
  - intros [|[|q]] s Hs; simplify_eq/=; done.
  - intros [|[|q]] s Hs; simplify_eq/=; done.
  - intros [|[|q]] Hq; simpl in Hq; [by exists "a"|by exists "b"|lia].
Qed.

Lemma assign_keeps_counts_witness :
  ∃ h w',
    handle_assign (mk_handle (Some 0)) (mk_handle (Some 1)) two_loaded
    = Some (h, w')
    ∧ shr h = shr (mk_handle (Some 1))
    ∧ handles_ok (<[0 := h]> [mk_handle (Some 0); mk_handle (Some 1)]) w'
    ∧ prog_inv (<[0 := h]> [mk_handle (Some 0); mk_handle (Some 1)]) w'
    ∧ counts_match (<[0 := h]> [mk_handle (Some 0); mk_handle (Some 1)]) w'.
Proof.
  apply (assign_keeps_counts [mk_handle (Some 0); mk_handle (Some 1)]
           two_loaded 0 1 (mk_handle (Some 0)) (mk_handle (Some 1))).
  - reflexivity.
  - reflexivity.
  - repeat constructor; intros q [= <-]; by eexists.
  - apply prog_inv_two_loaded.
Defined.

(** ** More of [get] and [reg] *)

(** The statements of [reg] for a name that has a block. *)
Lemma lotus_reg_body_present name o w p s :
  unlocked w →
  reg (registry w) !! name = Some p →
  heap w !! p = Some s →
  lotus_reg_body name o w =
    Some (tt, mk_world (<[p := mk_shared loaded (count s) o]> (heap w))
                (mk_registry (rrc (registry w)) false (reg (registry w)))
                (trace w ++ [EvLock; EvUnlock])).
Proof.
  intros Hu Hn Hs.
  rewrite (lotus_reg_body_eq name o w s Hu);
    rewrite ?(slot_of_present _ _ _ p Hn), ?(ensured_heap_present _ _ _ p Hn),
      ?(ensured_present _ _ _ p Hn); done.
Qed.

Lemma ensured_slot_count name rg h s :
  wf_store rg h →
  ensured_heap name rg h !! slot_of name rg h = Some s →
  count s = match rg !! name with
            | Some p => match h !! p with Some s0 => count s0 | None => 0%Z end
            | None => 0%Z
            end.
Proof.
  intros Hwf Hs. destruct (ensured_slot name rg h Hwf) as (_ & s' & Hs' & Hcase).
  rewrite Hs in Hs'. simplify_eq.
  destruct (rg !! name) as [p|]; [by rewrite Hcase|by subst].
Qed.

(** X4: the statements of [get], up to the end of its scope, on a
    well-formed world with the mutex free and a request callback that
    returns without calling [reg]: they run through and call the request
    callback once, for the name asked for, if the name is new or its block
    is [unloaded], and not at all if the block is [loaded] or
    [waiting_load]; they never call the unload callback.  The end of the
    scope then destroys [lock] a second time, so [get] itself has no
    defined result. *)
Theorem get_requests_once (w : world) (n : string) :
  wf w → unlocked w →
  (get_requests w n = true → rrc (registry w) n = []) →
  ∃ h w' evs,
    lotus_get_body n w = Some (h, w')
    ∧ trace w' = trace w ++ evs
    ∧ count_events is_request evs = (if get_requests w n then 1 else 0)
    ∧ (get_requests w n = true → EvRequest n ∈ evs)
    ∧ count_events is_unload evs = 0
    ∧ get_requests w n
      = match reg (registry w) !! n with
        | Some p => match heap w !! p with
                    | Some s => bool_decide (state s = unloaded)
                    | None => false
                    end
        | None => true
        end
    ∧ lotus_get n w = None.
Proof.
  intros Hwf Hu Hdef.
  destruct (lotus_get_body_defined n w Hwf Hu Hdef) as (s & _ & _ & Hget).
  eexists _, _, _. split; [exact Hget|]. split; [done|].
  split; [by destruct (get_requests w n)|].
  split; [|split; [by destruct (get_requests w n)|split; [done|]]].
  - intros ->. apply elem_of_app. right. by apply list_elem_of_singleton.
  - apply lotus_get_undefined.
Qed.

Lemma get_requests_once_witness :
  ∃ h w',
    lotus_get_body "b" one_loaded = Some (h, w')
    ∧ trace w' = [EvLock; EvUnlock; EvRequest "b"]
    ∧ lotus_get "b" one_loaded = None.
Proof.
  destruct (get_requests_once one_loaded "b")
    as (h & w' & evs & Hrun & Htr & _ & _ & _ & _ & Hnone).
  - apply wf_check_wf. vm_compute. reflexivity.
  - reflexivity.
  - reflexivity.
  - exists h, w'. split; [done|]. split; [|done].
    vm_compute in Hrun. injection Hrun as <- <-. reflexivity.
Defined.

(** X5: a deferred load, in the statements of [get] and [reg].  When the
    block of the name is unloaded (or the name is new) and the request
    callback returns without calling [reg], the statements of [get] give a
    handle that is not [good()]; after the statements of a [reg] of the
    name, the same handle is [good()] and reads the registered object. *)
Theorem deferred_load (w : world) (n : string) (o : objptr) :
  wf w → unlocked w →
  get_requests w n = true →
  rrc (registry w) n = [] →
  ∃ h w1 w2,
    lotus_get_body n w = Some (h, w1)
    ∧ good h w1 = Some (false, w1)
    ∧ lotus_reg_body n o w1 = Some (tt, w2)
    ∧ good h w2 = Some (true, w2)
    ∧ arrow h w2 = Some (o, w2)
    ∧ trace w2 = trace w ++ [EvLock; EvUnlock; EvRequest n; EvLock; EvUnlock].
Proof.
  intros Hwf Hu Hreq Hr.
  destruct (looked_up_slot n w Hwf) as (s & Hs & Hgr).
  rewrite Hreq in Hgr. symmetry in Hgr. apply bool_decide_eq_true in Hgr.
  destruct (ensured_slot n _ _ Hwf) as (Hn & _).
  pose proof (lotus_get_body_deferred n w s Hu Hr Hs Hgr) as Hget.
  set (p := slot_of n (reg (registry w)) (heap w)) in *.
  match type of Hget with _ = Some (_, ?x) => set (w1 := x) in * end.
  assert (Hp1 : heap w1 !! p
                = Some (set_count ((count s + 1) mod uint_modulus)%Z s)).
  { simpl. by apply (lookup_insert_same _ _ s). }
  pose proof (lotus_reg_body_present n o w1 p _ eq_refl Hn Hp1) as Hreg.
  exists (mk_handle (Some p)), w1. eexists. split; [exact Hget|].
  split; [|split; [exact Hreg|split; [|split]]].
  - rewrite (good_some w1 p _ Hp1). simpl. by rewrite Hgr.
  - erewrite good_some; [|simpl; by eapply lookup_insert_same]. done.
  - erewrite arrow_some; [|simpl; by eapply lookup_insert_same]. done.
  - simpl. by rewrite <- app_assoc.
Qed.

Lemma deferred_load_witness :
  ∃ h w1 w2,
    lotus_get_body "a" (new_world no_calls) = Some (h, w1)
    ∧ good h w1 = Some (false, w1)
    ∧ lotus_reg_body "a" (Some 7) w1 = Some (tt, w2)
    ∧ good h w2 = Some (true, w2)
    ∧ arrow h w2 = Some (Some 7, w2)
    ∧ trace w2 = trace (new_world no_calls)
                 ++ [EvLock; EvUnlock; EvRequest "a"; EvLock; EvUnlock].
Proof.
  apply (deferred_load (new_world no_calls) "a" (Some 7)).
  - apply wf_new_world.
  - reflexivity.
  - reflexivity.
  - reflexivity.
Defined.

(** X6: [get] never marks a block [waiting_load].  After the statements of
    a [get] whose request callback returned without calling [reg], the
    block is still [unloaded], so the statements of a second [get] of the
    name call the request callback again; both handles refer to the same
    block, whose count has gone up by two. *)
Theorem get_requests_again (w : world) (n : string) :
  wf w → unlocked w →
  get_requests w n = true →
  rrc (registry w) n = [] →
  ∃ p s w1 w2,
    lotus_get_body n w = Some (mk_handle (Some p), w1)
    ∧ heap (looked_up n w) !! p = Some s
    ∧ heap w1 !! p
      = Some (mk_shared unloaded ((count s + 1) mod uint_modulus)%Z (object s))
    ∧ get_requests w1 n = true
    ∧ lotus_get_body n w1 = Some (mk_handle (Some p), w2)
    ∧ heap w2 !! p
      = Some (mk_shared unloaded
                (((count s + 1) mod uint_modulus + 1) mod uint_modulus)%Z
                (object s))
    ∧ trace w2 = trace w ++ [EvLock; EvUnlock; EvRequest n;
                             EvLock; EvUnlock; EvRequest n].
Proof.
  intros Hwf Hu Hreq Hr.
  destruct (looked_up_slot n w Hwf) as (s & Hs & Hgr).
  rewrite Hreq in Hgr. symmetry in Hgr. apply bool_decide_eq_true in Hgr.
  destruct (ensured_slot n _ _ Hwf) as (Hn & _).
  pose proof (lotus_get_body_deferred n w s Hu Hr Hs Hgr) as Hget.
  set (p := slot_of n (reg (registry w)) (heap w)) in *.
  match type of Hget with _ = Some (_, ?x) => set (w1 := x) in * end.
  set (s1 := set_count ((count s + 1) mod uint_modulus)%Z s).
  assert (Hp1 : heap w1 !! p = Some s1)
    by (simpl; by apply (lookup_insert_same _ _ s)).
  assert (Hsl : slot_of n (reg (registry w1)) (heap w1) = p)
    by (by apply (slot_of_present _ _ _ p)).
  assert (Heh : ensured_heap n (reg (registry w1)) (heap w1) = heap w1)
    by (by apply (ensured_heap_present _ _ _ p)).
  assert (Her : ensured_reg n (reg (registry w1)) (heap w1) = reg (registry w1))
    by (by apply (ensured_present _ _ _ p)).
  assert (Hs1 : heap (looked_up n w1) !! slot_of n (reg (registry w1)) (heap w1)
                = Some s1).
  { unfold looked_up. cbn [heap]. by rewrite Hsl, Heh. }
  pose proof (lotus_get_body_deferred n w1 s1 eq_refl Hr Hs1 Hgr) as Hget2.
  rewrite Hsl, Heh, Her in Hget2.
  exists p, s, w1. eexists. split; [exact Hget|]. split; [exact Hs|].
  split; [|split; [|split; [exact Hget2|split]]].
  - rewrite Hp1. unfold s1. destruct s as [st c ob]. simpl in *. by subst.
  - unfold get_requests. simpl reg. rewrite Hn, Hp1.
    by apply bool_decide_eq_true.
  - simpl. rewrite list_insert_insert_eq.
    rewrite (lookup_insert_same _ _ s _ Hs).
    unfold s1. destruct s as [st c ob]. simpl in *. by subst.
  - simpl. by rewrite <- app_assoc.
Qed.

Lemma get_requests_again_witness :
  ∃ p s w1 w2,
    lotus_get_body "a" one_unloaded = Some (mk_handle (Some p), w1)
    ∧ heap (looked_up "a" one_unloaded) !! p = Some s
    ∧ heap w1 !! p
      = Some (mk_shared unloaded ((count s + 1) mod uint_modulus)%Z (object s))
    ∧ get_requests w1 "a" = true
    ∧ lotus_get_body "a" w1 = Some (mk_handle (Some p), w2)
    ∧ heap w2 !! p
      = Some (mk_shared unloaded
                (((count s + 1) mod uint_modulus + 1) mod uint_modulus)%Z
                (object s))
    ∧ trace w2 = trace one_unloaded ++ [EvLock; EvUnlock; EvRequest "a";
                                        EvLock; EvUnlock; EvRequest "a"].
Proof.
  apply (get_requests_again one_unloaded "a").
  - apply wf_check_wf. vm_compute. reflexivity.
  - reflexivity.
  - reflexivity.
  - reflexivity.
Defined.

(** X7: a request callback that calls [reg] before it returns.  The [reg]
    of the callback ends, like every [reg], with the second destruction of
    its [lock]: the callback has no defined result, and neither have the
    statements of a [get] that calls it, which is every [get] of a name that
    is new or whose block is [unloaded]. *)
Theorem immediate_load_undefined (w : world) (n : string) :
  wf w → unlocked w →
  get_requests w n = true →
  rrc (registry w) n ≠ [] →
  call_rrc n (looked_up n w) = None
  ∧ lotus_get_body n w = None
  ∧ lotus_get n w = None.
Proof.
  intros Hwf Hu Hreq Hr. split; [|split].
  - by apply call_rrc_reentrant.
  - by apply lotus_get_body_reentrant.
  - apply lotus_get_undefined.
Qed.

Lemma immediate_load_undefined_witness :
  call_rrc "a" (looked_up "a" (new_world load_seven)) = None
  ∧ lotus_get_body "a" (new_world load_seven) = None
  ∧ lotus_get "a" (new_world load_seven) = None.
Proof.
  apply (immediate_load_undefined (new_world load_seven) "a").
  - apply wf_new_world.
  - reflexivity.
  - reflexivity.
  - discriminate.
Defined.

(** X8: handles alias by name.  The statements of two calls of [get] with
    the same name, with request callbacks that return without calling
    [reg], give two handles of one block, the block the registry maps the
    name to, and its count has gone up by two. *)
Theorem get_same_name_same_block (w : world) (n : string) :
  wf w → unlocked w →
  rrc (registry w) n = [] →
  ∃ p s w1 w2 s2,
    lotus_get_body n w = Some (mk_handle (Some p), w1)
    ∧ lotus_get_body n w1 = Some (mk_handle (Some p), w2)
    ∧ reg (registry w2) !! n = Some p
    ∧ heap (looked_up n w) !! p = Some s
    ∧ heap w2 !! p = Some s2
    ∧ count s2 = (((count s + 1) mod uint_modulus + 1) mod uint_modulus)%Z
    ∧ state s2 = state s ∧ object s2 = object s.
Proof.
  intros Hwf Hu Hr.
  destruct (lotus_get_body_defined n w Hwf Hu (λ _, Hr)) as (s & Hs & _ & Hget).
  destruct (ensured_slot n _ _ Hwf) as (Hn & _).
  set (p := slot_of n (reg (registry w)) (heap w)) in *.
  match type of Hget with _ = Some (_, ?x) => set (w1 := x) in * end.
  set (s1 := set_count ((count s + 1) mod uint_modulus)%Z s).
  assert (Hp1 : heap w1 !! p = Some s1)
    by (simpl; by apply (lookup_insert_same _ _ s)).
  assert (Hwf1 : wf w1).
  { unfold wf, w1. simpl. apply wf_store_insert. by apply ensured_wf. }
  destruct (lotus_get_body_defined n w1 Hwf1 eq_refl (λ _, Hr))
    as (s' & Hs' & _ & Hget2).
  assert (Hsl : slot_of n (reg (registry w1)) (heap w1) = p)
    by (by apply (slot_of_present _ _ _ p)).
  assert (Heh : ensured_heap n (reg (registry w1)) (heap w1) = heap w1)
    by (by apply (ensured_heap_present _ _ _ p)).
  assert (Her : ensured_reg n (reg (registry w1)) (heap w1) = reg (registry w1))
    by (by apply (ensured_present _ _ _ p)).
  unfold looked_up in Hs'. cbn [heap] in Hs'.
  rewrite Hsl, Heh in Hs'. rewrite Hsl, Heh, Her in Hget2.
  assert (s' = s1) as -> by congruence.
  exists p, s, w1. eexists _, _. split; [exact Hget|]. split; [exact Hget2|].
  split; [exact Hn|]. split; [exact Hs|].
  split; [simpl; by apply (lookup_insert_same _ _ s1)|]. done.
Qed.

Lemma get_same_name_same_block_witness :
  ∃ p s w1 w2 s2,
    lotus_get_body "a" one_loaded = Some (mk_handle (Some p), w1)
    ∧ lotus_get_body "a" w1 = Some (mk_handle (Some p), w2)
    ∧ reg (registry w2) !! "a" = Some p
    ∧ heap (looked_up "a" one_loaded) !! p = Some s
    ∧ heap w2 !! p = Some s2
    ∧ count s2 = (((count s + 1) mod uint_modulus + 1) mod uint_modulus)%Z
    ∧ state s2 = state s ∧ object s2 = object s.
Proof.
  apply (get_same_name_same_block one_loaded "a").
  - apply wf_check_wf. vm_compute. reflexivity.
  - reflexivity.
  - reflexivity.
Defined.

(** X9: the statements of [reg] write the object and the state [loaded]
    into the block of the name and nothing else: the count of that block is
    kept (0 for a new name), every other block and every other name is as
    it was, and no callback is called.  So registering over a block that is
    loaded replaces the object without handing the old one to the unload
    callback.  The end of the scope then destroys [lock] a second time, so
    [reg] itself has no defined result. *)
Theorem reg_effect (w : world) (n : string) (o : objptr) :
  wf w → unlocked w →
  ∃ w' p c,
    lotus_reg_body n o w = Some (tt, w')
    ∧ reg (registry w') !! n = Some p
    ∧ heap w' !! p = Some (mk_shared loaded c o)
    ∧ c = match reg (registry w) !! n with
          | Some p0 => match heap w !! p0 with
                       | Some s0 => count s0
                       | None => 0%Z
                       end
          | None => 0%Z
          end
    ∧ (∀ q s, q ≠ p → heap w !! q = Some s → heap w' !! q = Some s)
    ∧ (∀ m, m ≠ n → reg (registry w') !! m = reg (registry w) !! m)
    ∧ trace w' = trace w ++ [EvLock; EvUnlock]
    ∧ wf w'
    ∧ lotus_reg n o w = None.
Proof.
  intros Hwf Hu.
  destruct (ensured_slot n _ _ Hwf) as (Hn & s & Hs & _).
  eexists _, _, (count s). split; [by apply lotus_reg_body_eq|].
  simpl. split_and!; try done.
  - by apply (lookup_insert_same _ _ s).
  - by apply ensured_slot_count.
  - intros q sq Hne Hq. rewrite list_lookup_insert_ne by done.
    unfold ensured_heap. destruct (reg (registry w) !! n); [done|].
    by apply lookup_app_l_Some.
  - intros m Hm. unfold ensured_reg.
    destruct (reg (registry w) !! n); [done|]. by rewrite lookup_insert_ne.
  - unfold wf. simpl. apply wf_store_insert. by apply ensured_wf.
  - apply lotus_reg_undefined.
Qed.

Lemma reg_effect_witness :
  ∃ w',
    lotus_reg_body "a" (Some 9) one_loaded = Some (tt, w')
    ∧ heap w' = [mk_shared loaded 1 (Some 9)]
    ∧ trace w' = [EvLock; EvUnlock]
    ∧ lotus_reg "a" (Some 9) one_loaded = None.
Proof.
  destruct (reg_effect one_loaded "a" (Some 9))
    as (w' & p & c & Hrun & _ & _ & _ & _ & _ & _ & _ & Hnone).
  - apply wf_check_wf. vm_compute. reflexivity.
  - reflexivity.
  - exists w'. split; [done|].
    vm_compute in Hrun. injection Hrun as <-. done.
Defined.

(** X10: the last [reg] wins.  The statements of [reg(n, o1)] followed by
    those of [reg(n, o2)] leave the heap and the registry that those of
    [reg(n, o2)] alone leave; the first object is gone from the registry
    and was never handed to the unload callback. *)
Theorem reg_twice_last_wins (w : world) (n : string) (o1 o2 : objptr) :
  wf w → unlocked w →
  ∃ w1 w12 w2,
    lotus_reg_body n o1 w = Some (tt, w1)
    ∧ lotus_reg_body n o2 w1 = Some (tt, w12)
    ∧ lotus_reg_body n o2 w = Some (tt, w2)
    ∧ heap w12 = heap w2
    ∧ registry w12 = registry w2
    ∧ trace w12 = trace w ++ [EvLock; EvUnlock; EvLock; EvUnlock].
Proof.
  intros Hwf Hu.
  destruct (ensured_slot n _ _ Hwf) as (Hn & s & Hs & _).
  pose proof (lotus_reg_body_eq n o1 w s Hu Hs) as H1.
  pose proof (lotus_reg_body_eq n o2 w s Hu Hs) as H2.
  set (p := slot_of n (reg (registry w)) (heap w)) in *.
  match type of H1 with _ = Some (_, ?x) => set (w1 := x) in * end.
  assert (Hp1 : heap w1 !! p = Some (mk_shared loaded (count s) o1))
    by (simpl; by apply (lookup_insert_same _ _ s)).
  pose proof (lotus_reg_body_present n o2 w1 p _ eq_refl Hn Hp1) as H12.
  eexists w1, _, _. split; [exact H1|]. split; [exact H12|].
  split; [exact H2|]. simpl. split_and!; try done.
  - by rewrite list_insert_insert_eq.
  - by rewrite <- app_assoc.
Qed.

Lemma reg_twice_last_wins_witness :
  ∃ w1 w12 w2,
    lotus_reg_body "a" (Some 8) one_loaded = Some (tt, w1)
    ∧ lotus_reg_body "a" (Some 9) w1 = Some (tt, w12)
    ∧ lotus_reg_body "a" (Some 9) one_loaded = Some (tt, w2)
    ∧ heap w12 = heap w2
    ∧ registry w12 = registry w2
    ∧ trace w12 = trace one_loaded ++ [EvLock; EvUnlock; EvLock; EvUnlock].
Proof.
  apply (reg_twice_last_wins one_loaded "a" (Some 8) (Some 9)).
  - apply wf_check_wf. vm_compute. reflexivity.
  - reflexivity.
Defined.

(** X11: a resource that is registered while no handle of its name is
    outstanding (the name is new, or the count of its block is 0) lives
    until its first user is done: after the statements of [reg(n, o)] and
    of [get(n)], the destruction of that handle hands [o] to the unload
    callback and leaves the block [unloaded] with count 0. *)
Theorem registered_then_used_once (w : world) (n : string) (o : objptr) :
  wf w → unlocked w →
  match reg (registry w) !! n with
  | Some p0 => match heap w !! p0 with
               | Some s0 => count s0 = 0%Z
               | None => True
               end
  | None => True
  end →
  ∃ w1 h w2 w3 p s3,
    lotus_reg_body n o w = Some (tt, w1)
    ∧ lotus_get_body n w1 = Some (h, w2)
    ∧ handle_dtor h w2 = Some (handle_empty, w3)
    ∧ trace w3 = trace w2 ++ [EvUnload o]
    ∧ shr h = Some p
    ∧ heap w3 !! p = Some s3
    ∧ state s3 = unloaded ∧ count s3 = 0%Z ∧ object s3 = o.
Proof.
  intros Hwf Hu Hzero.
  destruct (ensured_slot n _ _ Hwf) as (Hn & s & Hs & _).
  pose proof (ensured_slot_count n _ _ s Hwf Hs) as Hc.
  assert (Hc0 : count s = 0%Z).
  { rewrite Hc. destruct (reg (registry w) !! n) as [p0|]; [|done].
    by destruct (heap w !! p0). }
  pose proof (lotus_reg_body_eq n o w s Hu Hs) as H1.
  set (p := slot_of n (reg (registry w)) (heap w)) in *.
  match type of H1 with _ = Some (_, ?x) => set (w1 := x) in * end.
  assert (Hp1 : heap w1 !! p = Some (mk_shared loaded (count s) o))
    by (simpl; by apply (lookup_insert_same _ _ s)).
  pose proof (lotus_get_body_present n w1 p _ eq_refl Hn Hp1 ltac:(done)) as H2.
  match type of H2 with _ = Some (_, ?x) => set (w2 := x) in * end.
  set (s2 := set_count ((count (mk_shared loaded (count s) o) + 1)
                        mod uint_modulus)%Z (mk_shared loaded (count s) o)).
  assert (Hp2 : heap w2 !! p = Some s2)
    by (simpl; by eapply lookup_insert_same).
  pose proof (handle_dtor_some w2 p s2 Hp2) as H3.
  assert (Hlast : last_drop s2 = true).
  { unfold last_drop, s2. simpl. rewrite Hc0. done. }
  eexists w1, _, w2, _, p, _.
  split; [exact H1|]. split; [exact H2|]. split; [exact H3|].
  split; [|split; [done|split]].
  - unfold with_events, drop_events. by rewrite Hlast.
  - simpl. by apply (lookup_insert_same _ _ s2).
  - unfold dropped. rewrite Hlast. simpl. by rewrite Hc0.
Qed.

Lemma registered_then_used_once_witness :
  ∃ w1 h w2 w3 p s3,
    lotus_reg_body "a" (Some 7) (new_world no_calls) = Some (tt, w1)
    ∧ lotus_get_body "a" w1 = Some (h, w2)
    ∧ handle_dtor h w2 = Some (handle_empty, w3)
    ∧ trace w3 = trace w2 ++ [EvUnload (Some 7)]
    ∧ shr h = Some p
    ∧ heap w3 !! p = Some s3
    ∧ state s3 = unloaded ∧ count s3 = 0%Z ∧ object s3 = Some 7.
Proof.
  apply (registered_then_used_once (new_world no_calls) "a" (Some 7)).
  - apply wf_new_world.
  - reflexivity.
  - exact I.
Defined.

(** ** More of the bulk operations *)

(** X14: up to its explicit [lock.~lock_guard()], [reload_registry] is
    [unload_registry].  On every world, the locked part of
    [reload_registry] with the list of names dropped and [unload_registry]
    have the same result: both are undefined, or both return and leave the
    same heap, registry and trace. *)
Theorem reload_is_unload_then_request (w : world) :
  unload_registry w = (do _ <- reload_unload_phase; ret tt) w.
Proof.
  unfold unload_registry, reload_unload_phase, bind, reg_entries.
  destruct (lock_guard_ctor w) as [[[] wl]|]; [|done].
  pose proof (unload_scan_reload_scan (map_to_list (reg (registry wl))) wl [])
    as Hscan.
  unfold bind in Hscan. rewrite Hscan.
  destruct (reload_scan _ [] wl) as [[names ws]|]; [|done].
  unfold ret. by destruct (lock_guard_dtor ws) as [[[] w']|].
Qed.

(** X15: [reload_registry] with a request callback that calls [reg].  The
    locked part runs through: the unload callback is called once for each
    loaded entry and the blocks are left unloaded.  The loop over
    [to_load] then has no defined result, because of the callback that
    calls [reg]. *)
Theorem reload_callback_reg_undefined (w : world) (k : string) (p : ptr)
    (s : shared) :
  wf w → unlocked w →
  reg (registry w) !! k = Some p →
  heap w !! p = Some s →
  state s = loaded →
  rrc (registry w) k ≠ [] →
  ∃ names w1 evs,
    reload_unload_phase w = Some (names, w1)
    ∧ k ∈ names
    ∧ trace w1 = trace w ++ evs
    ∧ count_events is_unload evs = length (loaded_in_registry w)
    ∧ heap w1 !! p = Some (set_state unloaded s)
    ∧ for_each names call_rrc w1 = None
    ∧ reload_registry w = None.
Proof.
  intros Hwf Hu Hk Hs Hst Hr.
  destruct (bulk_unload_eq w Hwf Hu) as (h' & Hph & _ & _ & Hpt & _).
  destruct (registry_unload_events_count w) as (Hcu & _).
  assert (Hin : k ∈ (loaded_in_registry w).*1)
    by (apply loaded_names_spec; by exists p, s).
  eexists _, _, _. split; [exact Hph|]. split; [done|]. split; [done|].
  split; [|split; [|split]].
  - rewrite !count_events_app, !count_events_cons, !count_events_nil, Hcu.
    simpl. lia.
  - simpl. rewrite (Hpt p s Hs). f_equal. unfold bulk_unloaded.
    rewrite bool_decide_eq_true_2; [done|]. split; [done|].
    unfold registry_blocks. apply (list_elem_of_fmap_2 snd _ (k, p)).
    by apply elem_of_map_to_list.
  - match goal with |- ?run = None => destruct run as [[[] w2]|] eqn:Hfe end;
      [|done].
    apply for_each_rrc_Some in Hfe as [Hdef _]. by specialize (Hdef k Hin).
  - apply reload_registry_undefined.
Qed.

Lemma reload_callback_reg_undefined_witness :
  ∃ names w1,
    reload_unload_phase
      (mk_world (heap one_loaded)
         (mk_registry load_seven false (reg (registry one_loaded))) [])
    = Some (names, w1)
    ∧ heap w1 = [mk_shared unloaded 1 (Some 7)]
    ∧ trace w1 = [EvLock; EvUnload (Some 7); EvUnlock]
    ∧ for_each names call_rrc w1 = None.
Proof.
  destruct (reload_callback_reg_undefined
              (mk_world (heap one_loaded)
                 (mk_registry load_seven false (reg (registry one_loaded))) [])
              "a" 0 (mk_shared loaded 1 (Some 7)))
    as (names & w1 & evs & Hph & _ & _ & _ & _ & Hfe & _).
  - apply wf_check_wf. vm_compute. reflexivity.
  - reflexivity.
  - reflexivity.
  - reflexivity.
  - reflexivity.
  - discriminate.
  - exists names, w1. split; [done|].
    vm_compute in Hph. injection Hph as <- <-. done.
Defined.

(** ** Programs *)

Lemma handles_ok_length vars w w' :
  length (heap w') = length (heap w) → handles_ok vars w → handles_ok vars w'.
Proof.
  unfold handles_ok. intros Hlen Hok.
  eapply Forall_impl; [exact Hok|]. intros h Hh q Hq.
  apply lookup_lt_is_Some. rewrite Hlen. apply lookup_lt_is_Some. by apply Hh.
Qed.

Lemma wf_store_length rg h h' :
  length h' = length h → wf_store rg h → wf_store rg h'.
Proof.
  intros Hlen [Hptr Hinj]. split; [|done].
  intros n p Hn. apply lookup_lt_is_Some. rewrite Hlen.
  apply lookup_lt_is_Some. by eapply Hptr.
Qed.

(** One operation of a client that calls neither [get] nor [reg] nor
    [reload_registry]: it returns, the map and the number of blocks are as
    they were, and every block keeps its object; its state is as it was or
    has gone from [loaded] to [unloaded]. *)
Lemma run_op_frame c vars w :
  handles_only c = true →
  wf w → unlocked w → handles_ok vars w →
  ∃ vars' w',
    run_op c vars w = Some (vars', w')
    ∧ wf w' ∧ unlocked w' ∧ handles_ok vars' w'
    ∧ reg (registry w') = reg (registry w)
    ∧ length (heap w') = length (heap w)
    ∧ (∀ q s', heap w' !! q = Some s' →
         ∃ s, heap w !! q = Some s ∧ object s' = object s
              ∧ (state s' = state s
                 ∨ state s = loaded ∧ state s' = unloaded)).
Proof.
  intros Hc Hwf Hu Hok.
  assert (Hsame : ∀ q s', heap w !! q = Some s' →
            ∃ s, heap w !! q = Some s ∧ object s' = object s
                 ∧ (state s' = state s
                    ∨ state s = loaded ∧ state s' = unloaded))
    by (intros q s' Hs'; exists s'; auto).
  assert (Hins : ∀ p s x,
            heap w !! p = Some s → object x = object s →
            (state x = state s ∨ state s = loaded ∧ state x = unloaded) →
            ∀ q s', <[p := x]> (heap w) !! q = Some s' →
              ∃ s0, heap w !! q = Some s0 ∧ object s' = object s0
                    ∧ (state s' = state s0
                       ∨ state s0 = loaded ∧ state s' = unloaded)).
  { intros p s x Hp Hox Hsx q s' Hs'. destruct (decide (q = p)) as [->|Hne].
    - rewrite (lookup_insert_same _ _ s _ Hp) in Hs'. simplify_eq.
      by exists s.
    - rewrite list_lookup_insert_ne in Hs' by done. by apply Hsame. }
  destruct c as [name|name o|i|i| |]; try discriminate; simpl.
  - destruct (vars !! i) as [[[q|]]|] eqn:Hi.
    + assert (is_Some (heap w !! q)) as [s Hs].
      { unfold handles_ok in Hok. rewrite Forall_lookup in Hok.
        by apply (Hok i _ Hi). }
      rewrite (bind_Some _ _ _ _ _ (handle_copy_some w q s Hs)).
      eexists _, _. split; [done|]. unfold with_heap. simpl.
      split; [by apply wf_store_insert|]. split; [done|].
      split; [|split; [done|split; [by rewrite length_insert|]]].
      * apply Forall_app. split.
        -- apply (handles_ok_length vars w); [simpl; by rewrite length_insert|done].
        -- apply Forall_singleton. intros q' [= <-]. simpl.
           apply lookup_lt_is_Some. rewrite length_insert.
           by apply lookup_lt_is_Some.
      * apply (Hins q s); [done|done|by left].
    + eexists _, _. split; [done|]. split; [done|]. split; [done|].
      split; [|done].
      apply Forall_app. split; [done|]. by apply Forall_singleton.
    + by eexists _, _.
  - destruct (vars !! i) as [[[q|]]|] eqn:Hi.
    + assert (is_Some (heap w !! q)) as [s Hs].
      { unfold handles_ok in Hok. rewrite Forall_lookup in Hok.
        by apply (Hok i _ Hi). }
      rewrite (bind_Some _ _ _ _ _ (handle_dtor_some w q s Hs)).
      eexists _, _. split; [done|]. unfold with_events, with_heap. simpl.
      split; [by apply wf_store_insert|]. split; [done|].
      split; [|split; [done|split; [by rewrite length_insert|]]].
      * apply Forall_insert; [|done].
        apply (handles_ok_length vars w); [simpl; by rewrite length_insert|done].
      * apply (Hins q s); [done| |].
        -- unfold dropped. by destruct (last_drop s).
        -- unfold dropped, last_drop.
           destruct (bool_decide (count s = 1%Z)); simpl; [|by left].
           case_bool_decide; simpl; [by right|by left].
    + eexists _, _. split; [done|]. split; [done|]. split; [done|].
      split; [|done]. apply Forall_insert; done.
    + by eexists _, _.
  - destruct (unload_registry_eq w Hwf Hu) as (h' & Hul & Hlen & Hpt).
    rewrite (bind_Some _ _ _ _ _ Hul).
    eexists _, _. split; [done|]. simpl.
    split; [by apply (wf_store_length _ (heap w))|]. split; [done|].
    split; [by apply (handles_ok_length vars w)|]. split; [done|].
    split; [done|].
    intros q s' Hs'.
    assert (is_Some (heap w !! q)) as [s Hs].
    { apply lookup_lt_is_Some. rewrite <- Hlen. by eapply lookup_lt_Some. }
    rewrite (Hpt q s Hs) in Hs'. simplify_eq. exists s. split; [done|].
    unfold bulk_unloaded. case_bool_decide as Hd; [|by auto].
    split; [done|]. right. by destruct Hd.
Qed.

(** The counts under one such operation. *)
Lemma run_op_counts c vars w vars' w' :
  handles_only c = true →
  wf w → unlocked w → handles_ok vars w →
  counts_match vars w →
  run_op c vars w = Some (vars', w') →
  counts_match vars' w'.
Proof.
  intros Hc Hwf Hu Hok Hcm Hrun.
  destruct c as [name|name o|i|i| |]; try discriminate; simpl in Hrun.
  - destruct (vars !! i) as [[[p|]]|] eqn:Hi.
    + assert (is_Some (heap w !! p)) as [s Hp].
      { unfold handles_ok in Hok. rewrite Forall_lookup in Hok.
        by apply (Hok i _ Hi). }
      rewrite (bind_Some _ _ _ _ _ (handle_copy_some w p s Hp)) in Hrun.
      injection Hrun as <- <-.
      intros q s' Hs'. simpl in Hs'. rewrite live_handles_app. simpl.
      destruct (decide (q = p)) as [->|Hne].
      * rewrite (lookup_insert_same _ _ s _ Hp) in Hs'. simplify_eq. simpl.
        rewrite (Hcm p s Hp), bool_decide_eq_true_2 by done.
        rewrite Nat2Z.inj_add. by rewrite Z.add_mod_idemp_l.
      * rewrite list_lookup_insert_ne in Hs' by done.
        rewrite bool_decide_eq_false_2 by congruence.
        rewrite Nat.add_0_r. by apply Hcm.
    + cbv [bind handle_copy shr ret] in Hrun. injection Hrun as <- <-.
      intros q s Hs. rewrite live_handles_app. simpl.
      rewrite Nat.add_0_r. by apply Hcm.
    + cbv [ret] in Hrun. by injection Hrun as <- <-.
  - destruct (vars !! i) as [[[p|]]|] eqn:Hi.
    + assert (is_Some (heap w !! p)) as [s Hp].
      { unfold handles_ok in Hok. rewrite Forall_lookup in Hok.
        by apply (Hok i _ Hi). }
      rewrite (bind_Some _ _ _ _ _ (handle_dtor_some w p s Hp)) in Hrun.
      injection Hrun as <- <-.
      assert (Hcd : count (dropped s) = ((count s - 1) mod uint_modulus)%Z).
      { unfold dropped. by destruct (last_drop s). }
      intros q s' Hs'. unfold with_events, with_heap in Hs'. simpl in Hs'.
      pose proof (live_handles_insert q vars i _ (mk_handle None) Hi) as Hl.
      simpl in Hl.
      destruct (decide (q = p)) as [->|Hne].
      * rewrite (lookup_insert_same _ _ s _ Hp) in Hs'. simplify_eq.
        rewrite bool_decide_eq_true_2 in Hl by done.
        rewrite Hcd, (Hcm p s Hp), Zminus_mod_idemp_l. f_equal. lia.
      * rewrite list_lookup_insert_ne in Hs' by done.
        rewrite bool_decide_eq_false_2 in Hl by congruence.
        rewrite (Hcm q s' Hs'). f_equal. lia.
    + cbv [bind handle_dtor shr ret] in Hrun. injection Hrun as <- <-.
      by rewrite list_insert_id.
    + cbv [ret] in Hrun. by injection Hrun as <- <-.
  - destruct (unload_registry_eq w Hwf Hu) as (h' & Hul & Hlen & Hpt).
    rewrite (bind_Some _ _ _ _ _ Hul) in Hrun. injection Hrun as <- <-.
    intros q s' Hs'. simpl in Hs'.
    assert (is_Some (heap w !! q)) as [s Hs].
    { apply lookup_lt_is_Some. rewrite <- Hlen. by eapply lookup_lt_Some. }
    rewrite (Hpt q s Hs) in Hs'. simplify_eq.
    rewrite <- (Hcm q s Hs). unfold bulk_unloaded. by case_bool_decide.
Qed.

Lemma run_frame prog :
  ∀ vars w,
    Forall (λ c, handles_only c = true) prog →
    wf w → unlocked w → handles_ok vars w →
    ∃ vars' w',
      run prog vars w = Some (vars', w')
      ∧ wf w' ∧ unlocked w' ∧ handles_ok vars' w'
      ∧ reg (registry w') = reg (registry w)
      ∧ length (heap w') = length (heap w)
      ∧ (∀ q s', heap w' !! q = Some s' →
           ∃ s, heap w !! q = Some s ∧ object s' = object s
                ∧ (state s' = state s
                   ∨ state s = loaded ∧ state s' = unloaded))
      ∧ (counts_match vars w → counts_match vars' w').
Proof.
  induction prog as [|c prog IH]; intros vars w Hsafe Hwf Hu Hok.
  - exists vars, w. split_and!; try done. intros q s' Hs'. exists s'. auto.
  - apply Forall_cons in Hsafe as [Hc Hsafe].
    destruct (run_op_frame c vars w Hc Hwf Hu Hok)
      as (vars1 & w1 & Hrun & Hwf1 & Hu1 & Hok1 & Hr1 & Hl1 & Hst1).
    destruct (IH vars1 w1 Hsafe Hwf1 Hu1 Hok1)
      as (vars2 & w2 & Hrun2 & Hwf2 & Hu2 & Hok2 & Hr2 & Hl2 & Hst2 & Hcm2).
    exists vars2, w2. split; [|split_and!; try done; try congruence].
    + simpl. by rewrite (bind_Some _ _ _ _ _ Hrun).
    + intros q s2 Hs2. destruct (Hst2 q s2 Hs2) as (s1 & Hs1 & Ho2 & Hc2).
      destruct (Hst1 q s1 Hs1) as (s & Hs & Ho1 & Hc1).
      exists s. split; [done|]. split; [congruence|].
      destruct Hc2 as [He2|[Hl2' Hu2']], Hc1 as [He1|[Hl1' Hu1']];
        [left|right|right|]; try (split; congruence); congruence.
    + intros Hcm. apply Hcm2.
      by apply (run_op_counts c vars w vars1 w1).
Qed.

(** X16: the count is the number of live handles.  In a world where the
    count of every block is the number of variables that hold a handle of
    the block, modulo [2^32], every program of handle copies, handle drops
    and [unload_registry] returns, and the counts are again the numbers of
    handles. *)
Theorem count_is_live_handles
    (prog : list op) (vars : list resource_handle) (w : world) :
  Forall (λ c, handles_only c = true) prog →
  wf w → unlocked w → handles_ok vars w →
  (∀ q s, heap w !! q = Some s →
          count s = (Z.of_nat (live_handles q vars) mod uint_modulus)%Z) →
  ∃ vars' w',
    run prog vars w = Some (vars', w')
    ∧ ∀ q s, heap w' !! q = Some s →
             count s = (Z.of_nat (live_handles q vars') mod uint_modulus)%Z.
Proof.
  intros Hsafe Hwf Hu Hok Hcm.
  destruct (run_frame prog vars w Hsafe Hwf Hu Hok)
    as (vars' & w' & Hrun & _ & _ & _ & _ & _ & _ & Hcm').
  exists vars', w'. split; [done|]. by apply Hcm'.
Qed.

Lemma count_is_live_handles_witness :
  ∃ vars' w',
    run [OpCopy 0; OpDrop 1; OpUnload; OpDrop 0]
      [mk_handle (Some 0); mk_handle (Some 1)] two_loaded = Some (vars', w')
    ∧ ∀ q s, heap w' !! q = Some s →
             count s = (Z.of_nat (live_handles q vars') mod uint_modulus)%Z.
Proof.
  apply (count_is_live_handles [OpCopy 0; OpDrop 1; OpUnload; OpDrop 0]).
  - repeat constructor.
  - apply wf_check_wf. vm_compute. reflexivity.
  - reflexivity.
  - repeat constructor; intros q [= <-]; simpl; eauto.
  - intros [|[|q]] s Hs; simplify_eq/=; done.
Defined.

(** X17: handle copies, handle drops and [unload_registry] never store
    [waiting_load].  In a world where no block is [waiting_load], after any
    program of these operations every block is [loaded] or [unloaded]. *)
Theorem waiting_load_never_stored
    (prog : list op) (vars : list resource_handle) (w : world) :
  Forall (λ c, handles_only c = true) prog →
  wf w → unlocked w → handles_ok vars w →
  (∀ q s, heap w !! q = Some s → state s ≠ waiting_load) →
  ∃ vars' w',
    run prog vars w = Some (vars', w')
    ∧ ∀ q s, heap w' !! q = Some s → state s = loaded ∨ state s = unloaded.
Proof.
  intros Hsafe Hwf Hu Hok Hnw.
  destruct (run_frame prog vars w Hsafe Hwf Hu Hok)
    as (vars' & w' & Hrun & _ & _ & _ & _ & _ & Hst & _).
  exists vars', w'. split; [done|]. intros q s' Hs'.
  destruct (Hst q s' Hs') as (s & Hs & _ & Hcase).
  specialize (Hnw q s Hs).
  destruct Hcase as [He|[_ He]]; [|by right].
  rewrite He. destruct (state s); auto. done.
Qed.

Lemma waiting_load_never_stored_witness :
  ∃ vars' w',
    run [OpDrop 0; OpCopy 1; OpUnload]
      [mk_handle (Some 0); mk_handle (Some 1)] two_loaded = Some (vars', w')
    ∧ ∀ q s, heap w' !! q = Some s → state s = loaded ∨ state s = unloaded.
Proof.
  apply (waiting_load_never_stored [OpDrop 0; OpCopy 1; OpUnload]).
  - repeat constructor.
  - apply wf_check_wf. vm_compute. reflexivity.
  - reflexivity.
  - repeat constructor; intros q [= <-]; simpl; eauto.
  - intros [|[|q]] s Hs; simplify_eq/=; done.
Defined.

(** X18: names and blocks stay paired.  In a world where every block is
    the block of a name, after any program of handle copies, handle drops
    and [unload_registry] every name of the map points to a block, every
    block is the block of exactly one name, and every handle a variable
    holds is empty or refers to a block that is there; no operation frees a
    block or leaves one without a name. *)
Theorem names_and_blocks_paired
    (prog : list op) (vars : list resource_handle) (w : world) :
  Forall (λ c, handles_only c = true) prog →
  wf w → unlocked w → handles_ok vars w →
  (∀ q, q < length (heap w) → ∃ n, reg (registry w) !! n = Some q) →
  ∃ vars' w',
    run prog vars w = Some (vars', w')
    ∧ (∀ n p, reg (registry w') !! n = Some p → is_Some (heap w' !! p))
    ∧ (∀ q, q < length (heap w') →
         ∃ n, reg (registry w') !! n = Some q
              ∧ ∀ m, reg (registry w') !! m = Some q → m = n)
    ∧ (∀ h q, h ∈ vars' → shr h = Some q → is_Some (heap w' !! q)).
Proof.
  intros Hsafe Hwf Hu Hok Hnm.
  destruct (run_frame prog vars w Hsafe Hwf Hu Hok)
    as (vars' & w' & Hrun & [Hptr Hinj] & _ & Hok' & Hr & Hl & _).
  exists vars', w'. split; [done|]. split; [done|]. split.
  - intros q Hq. rewrite Hl in Hq. destruct (Hnm q Hq) as [n Hn].
    exists n. rewrite Hr. split; [done|].
    intros m Hm. rewrite <- Hr in Hn, Hm. by eapply Hinj.
  - intros h q Hin Hq. unfold handles_ok in Hok'.
    rewrite Forall_forall in Hok'. by apply (Hok' h Hin).
Qed.

Lemma names_and_blocks_paired_witness :
  ∃ vars' w',
    run [OpCopy 1; OpUnload; OpDrop 1; OpDrop 2]
      [mk_handle (Some 0); mk_handle (Some 1)] two_loaded = Some (vars', w')
    ∧ (∀ n p, reg (registry w') !! n = Some p → is_Some (heap w' !! p))
    ∧ (∀ q, q < length (heap w') →
         ∃ n, reg (registry w') !! n = Some q
              ∧ ∀ m, reg (registry w') !! m = Some q → m = n)
    ∧ (∀ h q, h ∈ vars' → shr h = Some q → is_Some (heap w' !! q)).
Proof.
  apply (names_and_blocks_paired [OpCopy 1; OpUnload; OpDrop 1; OpDrop 2]).
  - repeat constructor.
  - apply wf_check_wf. vm_compute. reflexivity.
  - reflexivity.
  - repeat constructor; intros q [= <-]; simpl; eauto.
  - intros [|[|q]] Hq; simpl in Hq; [by exists "a"|by exists "b"|lia].
Defined.

(** X19: handle operations and [unload_registry] leave the map and the
    objects alone.  After any program of handle copies, handle drops and
    [unload_registry] the map of the registry is the one the program
    started with and the heap has the same blocks: no entry is added,
    rewritten or removed, no block is allocated or freed.  Every block
    keeps its object pointer, and its state is the one it had or has gone
    from [loaded] to [unloaded]: nothing but [reg] loads. *)
Theorem names_keep_their_blocks
    (prog : list op) (vars : list resource_handle) (w : world) :
  Forall (λ c, handles_only c = true) prog →
  wf w → unlocked w → handles_ok vars w →
  ∃ vars' w',
    run prog vars w = Some (vars', w')
    ∧ reg (registry w') = reg (registry w)
    ∧ length (heap w') = length (heap w)
    ∧ (∀ q s', heap w' !! q = Some s' →
         ∃ s, heap w !! q = Some s ∧ object s' = object s
              ∧ (state s' = state s
                 ∨ state s = loaded ∧ state s' = unloaded)).
Proof.
  intros Hsafe Hwf Hu Hok.
  destruct (run_frame prog vars w Hsafe Hwf Hu Hok)
    as (vars' & w' & Hrun & _ & _ & _ & Hr & Hl & Hst & _).
  by exists vars', w'.
Qed.

Lemma names_keep_their_blocks_witness :
  ∃ vars' w',
    run [OpUnload; OpCopy 0; OpDrop 0; OpDrop 1]
      [mk_handle (Some 0); mk_handle (Some 1)] two_loaded = Some (vars', w')
    ∧ reg (registry w') = reg (registry two_loaded)
    ∧ length (heap w') = length (heap two_loaded)
    ∧ (∀ q s', heap w' !! q = Some s' →
         ∃ s, heap two_loaded !! q = Some s ∧ object s' = object s
              ∧ (state s' = state s
                 ∨ state s = loaded ∧ state s' = unloaded)).
Proof.
  apply (names_keep_their_blocks [OpUnload; OpCopy 0; OpDrop 0; OpDrop 1]).
  - repeat constructor.
  - apply wf_check_wf. vm_compute. reflexivity.
  - reflexivity.
  - repeat constructor; intros q [= <-]; simpl; eauto.
Defined.

(** X23: a program that calls [get], [reg] or [reload_registry] has no
    defined result, whatever the world, the variables and the request
    callback: each of the three ends with the second destruction of its
    [lock]. *)
Theorem program_with_lock_guard_undefined
    (prog : list op) (vars : list resource_handle) (w : world) :
  Exists (λ c, handles_only c = false) prog →
  run prog vars w = None.
Proof.
  intros Hex. revert vars w.
  induction prog as [|c prog IH]; intros vars w.
  - by apply Exists_nil in Hex.
  - simpl. unfold bind.
    destruct (run_op c vars w) as [[vars1 w1]|] eqn:Hrun; [|done].
    apply Exists_cons in Hex as [Hc|Hex]; [|by apply IH].
    exfalso. destruct c as [name|name o|i|i| |]; try discriminate;
      simpl in Hrun; unfold bind in Hrun.
    + by rewrite lotus_get_undefined in Hrun.
    + by rewrite lotus_reg_undefined in Hrun.
    + by rewrite reload_registry_undefined in Hrun.
Qed.

Lemma program_with_lock_guard_undefined_witness :
  run [OpReg "a" (Some 7); OpGet "a"; OpDrop 0] [] (new_world no_calls) = None.
Proof.
  apply (program_with_lock_guard_undefined
           [OpReg "a" (Some 7); OpGet "a"; OpDrop 0]).
  apply Exists_cons_hd. reflexivity.
Defined.
